(** * mittwald-flow-mcp: the fetch / resolve / cache pipeline

    A shallow embedding of [src/services/cache.ts], [src/services/github.ts]
    and [src/services/scraper.ts], together with the properties of the
    cache, the registry builder, the resolver, the static content fetcher
    and the dynamic extractor.

    Conventions of the embedding:
    - [Date.now()] is an explicit argument [now : Z] (milliseconds) of
      every operation that reads the clock;
    - the module-level [store] of [cache.ts] is a [gmap string (CacheEntry V)]
      threaded through the operations;
    - [async] functions that can reject run in a state-and-exception monad
      over that store;
    - the network and the browser are oracles that answer each request. *)

From Stdlib Require Import ZArith Ascii List Bool Lia DecimalString.
From stdpp Require Import base option list gmap strings.

Local Open Scope Z_scope.

(* ===================================================================== *)
(** * types.ts *)
(* ===================================================================== *)

Record ComponentInfo := {
  slug : string;
  name : string;
  description : string;
  category : string;
}.

Record ComponentRegistry := {
  components : list ComponentInfo;
  bySlug : gmap string ComponentInfo;
}.

(** The fields of [PropertyInfo] carry a prefix: [name], [type], [default]
    and [description] are taken already. *)
Record PropertyInfo := {
  prop_name : string;
  prop_type : string;
  prop_default : string;
  prop_required : bool;
  prop_description : string;
}.

Record PropertiesSection := {
  heading : string;
  properties : list PropertyInfo;
}.

Record DevelopData := {
  sections : list PropertiesSection;
}.

Record CacheEntry (T : Type) := {
  value : T;
  expiresAt : Z;
}.
Arguments value {T} _.
Arguments expiresAt {T} _.

(* ===================================================================== *)
(** * services/cache.ts *)
(* ===================================================================== *)

Module TTL.
Definition REGISTRY : Z := 60 * 60 * 1000.
Definition MDX : Z := 30 * 60 * 1000.
Definition DEVELOP : Z := 120 * 60 * 1000.
Definition EXAMPLE : Z := 30 * 60 * 1000.
End TTL.

(** [const store = new Map<string, CacheEntry<unknown>>()]: the store is
    generic in the type [V] of the cached values. *)
Abbreviation Store V := (gmap string (CacheEntry V)).

(** [cacheGet]: the looked-up value (or a miss) and the store afterwards. *)
Definition cacheGet {V} (now : Z) (key : string) (store : Store V)
  : option V * Store V :=
  match store !! key with
  | None => (None, store)
  | Some entry =>
      if now >? expiresAt entry
      then (None, delete key store)
      else (Some (value entry), store)
  end.

Definition cacheSet {V} (now : Z) (key : string) (v : V) (ttl : Z)
    (store : Store V) : Store V :=
  <[key := {| value := v; expiresAt := now + ttl |}]> store.

(** A history of cache operations, each with the clock it saw. *)
Inductive CacheOp (V : Type) :=
| OpGet (now : Z) (key : string)
| OpSet (now : Z) (key : string) (v : V) (ttl : Z).
Arguments OpGet {V} _ _.
Arguments OpSet {V} _ _ _ _.

Definition runOp {V} (store : Store V) (op : CacheOp V) : Store V :=
  match op with
  | OpGet now key => snd (cacheGet now key store)
  | OpSet now key v ttl => cacheSet now key v ttl store
  end.

Definition runOps {V} (ops : list (CacheOp V)) (store : Store V) : Store V :=
  fold_left runOp ops store.

(** [op] is no [cacheSet] of [key]. *)
Definition notSetOf {V} (key : string) (op : CacheOp V) : Prop :=
  match op with
  | OpGet _ _ => True
  | OpSet _ k _ _ => k ≠ key
  end.

(** [op] neither overwrites [key] nor looks it up after [deadline]. *)
Definition keepsEntry {V} (key : string) (deadline : Z) (op : CacheOp V) : Prop :=
  match op with
  | OpGet now k => k ≠ key ∨ now <= deadline
  | OpSet _ k _ _ => k ≠ key
  end.

(* ===================================================================== *)
(** * JavaScript strings and values *)
(* ===================================================================== *)

(** Strings are sequences of ASCII characters; [toLowerCase] maps the
    letters [A]..[Z] and leaves every other character alone. *)
Definition lowerChar (c : ascii) : ascii :=
  let n := nat_of_ascii c in
  if ((65 <=? n) && (n <=? 90))%nat then ascii_of_nat (n + 32) else c.

Fixpoint toLowerCase (s : string) : string :=
  match s with
  | EmptyString => EmptyString
  | String c s' => String (lowerChar c) (toLowerCase s')
  end.

(** [s.startsWith(p)] *)
Fixpoint startsWith (s p : string) {struct p} : bool :=
  match p, s with
  | EmptyString, _ => true
  | String _ _, EmptyString => false
  | String a p', String b s' => if Ascii.eqb a b then startsWith s' p' else false
  end.

(** [s.includes(needle)] *)
Fixpoint includes (s needle : string) : bool :=
  startsWith s needle ||
  match s with
  | EmptyString => false
  | String _ s' => includes s' needle
  end.

(** [s.replace(/\|/g, "\\|")]: a backslash in front of every pipe. *)
Fixpoint escapePipes (s : string) : string :=
  match s with
  | EmptyString => EmptyString
  | String c s' =>
      if Ascii.eqb c "|" then String "\" (String "|" (escapePipes s'))
      else String c (escapePipes s')
  end.

(** [parts.join(sep)] *)
Fixpoint join (sep : string) (parts : list string) : string :=
  match parts with
  | [] => ""
  | [x] => x
  | x :: rest => x +:+ sep +:+ join sep rest
  end.

(** [s.split(sep)] for a one-character separator. *)
Fixpoint split (sep : ascii) (s : string) : list string :=
  match s with
  | EmptyString => [""]
  | String c s' =>
      if Ascii.eqb c sep then "" :: split sep s'
      else match split sep s' with
           | [] => [String c ""]
           | h :: t => String c h :: t
           end
  end.

Definition newline : string := String "010" EmptyString.

(** The suffix of [s] after the prefix [p], when [s] starts with [p]. *)
Fixpoint stripPrefix (p s : string) : option string :=
  match p, s with
  | EmptyString, _ => Some s
  | String _ _, EmptyString => None
  | String a p', String b s' => if Ascii.eqb a b then stripPrefix p' s' else None
  end.

Definition nonEmpty (s : string) : bool :=
  match s with EmptyString => false | String _ _ => true end.

(** What the cache holds. The store is typed [CacheEntry<unknown>] and
    [cacheGet<T>] asserts the type without a check, so a cached value is
    one of the three kinds of value the program stores. *)
Inductive Value :=
| VString (s : string)
| VRegistry (r : ComponentRegistry)
| VDevelop (d : DevelopData).

(** JavaScript truthiness: of these values only the empty string is falsy. *)
Definition truthy (v : Value) : bool :=
  match v with
  | VString s => nonEmpty s
  | VRegistry _ | VDevelop _ => true
  end.

(** What a rejected promise carries. *)
Inductive Error :=
| GitHubApiError (status : Z) (statusText : string)
| GitHubRawFetchError (status : Z) (statusText : string)
| FetchRejected (reason : string)
| BodyError
| TypeError
| BrowserError (message : string).

Inductive Outcome (A : Type) :=
| Ok (a : A)
| Throw (e : Error).
Arguments Ok {A} _.
Arguments Throw {A} _.

(** ** The monad of [async] functions over a state [S] *)

Definition M (S A : Type) : Type := S → Outcome A * S.

Definition ret {S A} (a : A) : M S A := λ s, (Ok a, s).

Definition throw {S A} (e : Error) : M S A := λ s, (Throw e, s).

Definition bind {S A B} (m : M S A) (k : A → M S B) : M S B :=
  λ s, match m s with
       | (Ok a, s') => k a s'
       | (Throw e, s') => (Throw e, s')
       end.

(** A settled promise joins the computation without touching the state. *)
Definition await {S A} (o : Outcome A) : M S A := λ s, (o, s).

(** [try { body } finally { cleanup }] *)
Definition tryFinally {S A} (body : M S A) (cleanup : M S unit) : M S A :=
  λ s, match body s with
       | (r, s') =>
           match cleanup s' with
           | (Ok _, s'') => (r, s'')
           | (Throw e, s'') => (Throw e, s'')
           end
       end.

(** [promise.catch(() => {})] *)
Definition catchIgnore {S} (m : M S unit) : M S unit :=
  λ s, match m s with
       | (_, s') => (Ok (), s')
       end.

Notation "'let*' x ':=' m 'in' k" := (bind m (λ x, k))
  (at level 10, x name, m at level 100, k at level 200).
Notation "m ';;' k" := (bind m (λ _, k))
  (at level 100, k at level 200, right associativity).

(** [Promise.all(xs.map(f))] where [f] touches no state: the results in the
    order of [xs], or a rejection. When several promises reject, the one
    that settles first decides the error; the embedding takes the first in
    list order, and no statement below depends on which error it is. *)
Fixpoint allOutcomes {A B} (f : A → Outcome B) (xs : list A) : Outcome (list B) :=
  match xs with
  | [] => Ok []
  | x :: xs' =>
      match f x with
      | Throw e => Throw e
      | Ok b =>
          match allOutcomes f xs' with
          | Throw e => Throw e
          | Ok bs => Ok (b :: bs)
          end
      end
  end.

(* ===================================================================== *)
(** * services/github.ts *)
(* ===================================================================== *)

Definition REPO : string := "mittwald/flow".
Definition BRANCH : string := "main".
Definition CONTENT_BASE : string := "apps/docs/src/content/04-components".
Definition RAW_BASE : string :=
  "https://raw.githubusercontent.com/" +:+ REPO +:+ "/" +:+ BRANCH.
Definition TREE_URL : string :=
  "https://api.github.com/repos/" +:+ REPO +:+ "/git/trees/" +:+ BRANCH
  +:+ "?recursive=1".

Record TreeEntry := {
  path : string;
  type : string;
}.

(** A response of [fetch]: [text] is what [res.text()] resolves to and
    [json] what [res.json()] resolves to, read as [{ tree: TreeEntry[] }];
    [json = None] is a body that is no such document. *)
Record Response := {
  status : Z;
  statusText : string;
  text : string;
  json : option (list TreeEntry);
}.

(** [fetch(url)] either rejects (no connection) or resolves to a response. *)
Inductive FetchResult :=
| Rejected (reason : string)
| Resolved (res : Response).

(** [res.ok] *)
Definition ok (res : Response) : bool :=
  (200 <=? status res) && (status res <=? 299).

(** [indexPattern]: [^CONTENT_BASE/([^/]+)/([^/]+)/index\.mdx$] *)
Definition matchIndex (p : string) : option (string * string) :=
  match stripPrefix (CONTENT_BASE +:+ "/") p with
  | None => None
  | Some rest =>
      match split "/" rest with
      | [cat; slg; file] =>
          if nonEmpty cat && nonEmpty slg && bool_decide (file = "index.mdx")
          then Some (cat, slg)
          else None
      | _ => None
      end
  end.

(** The [entries] array of [getRegistry]: (category, slug) per matching path. *)
Definition treeEntries (tree : list TreeEntry) : list (string * string) :=
  omap (λ entry, matchIndex (path entry)) tree.

Definition indexUrl (cat slg : string) : string :=
  RAW_BASE +:+ "/" +:+ CONTENT_BASE +:+ "/" +:+ cat +:+ "/" +:+ slg
  +:+ "/index.mdx".

(** The component a 404 (or an empty document) degrades to. *)
Definition bareComponent (cat slg : string) : ComponentInfo :=
  {| slug := slg; name := slg; description := ""; category := cat |}.

(** [for (const c of components) bySlug.set(c.slug, c)] *)
Definition buildBySlug (cs : list ComponentInfo) : gmap string ComponentInfo :=
  fold_left (λ m c, <[slug c := c]> m) cs ∅.

Definition mdxKey (cat component tab : string) : string :=
  "mdx:" +:+ cat +:+ "/" +:+ component +:+ "/" +:+ tab.

Definition mdxUrl (cat component tab : string) : string :=
  RAW_BASE +:+ "/" +:+ CONTENT_BASE +:+ "/" +:+ cat +:+ "/" +:+ component
  +:+ "/" +:+ tab +:+ ".mdx".

Definition exampleKey (cat component nm : string) : string :=
  "example:" +:+ cat +:+ "/" +:+ component +:+ "/" +:+ nm.

Definition exampleUrl (cat component nm : string) : string :=
  RAW_BASE +:+ "/" +:+ CONTENT_BASE +:+ "/" +:+ cat +:+ "/" +:+ component
  +:+ "/examples/" +:+ nm +:+ ".tsx".

(** The [tab] parameter of [fetchMdx]. *)
Inductive Tab := overview | guidelines | develop.

Definition tabName (t : Tab) : string :=
  match t with
  | overview => "overview"
  | guidelines => "guidelines"
  | develop => "develop"
  end.

(** What [resolveCategory] resolves to. *)
Record Location := {
  loc_category : string;
  loc_slug : string;
}.

Section GitHub.

(** The network: the answer of [fetch] to each URL. *)
Variable fetch : string → FetchResult.

(** [parseFrontmatter] is a total, pure function of the document; it is
    left abstract, so every statement holds whatever it extracts. The pair
    is ([component], [description]). *)
Variable parseFrontmatter : string → string * string.

Definition fetchJson (url : string) : Outcome (list TreeEntry) :=
  match fetch url with
  | Rejected reason => Throw (FetchRejected reason)
  | Resolved res =>
      if negb (ok res) then Throw (GitHubApiError (status res) (statusText res))
      else match json res with
           | Some tree => Ok tree
           | None => Throw BodyError
           end
  end.

(** [fetchRaw]: [None] is JavaScript's [null]. *)
Definition fetchRaw (url : string) : Outcome (option string) :=
  match fetch url with
  | Rejected reason => Throw (FetchRejected reason)
  | Resolved res =>
      if status res =? 404 then Ok None
      else if negb (ok res)
      then Throw (GitHubRawFetchError (status res) (statusText res))
      else Ok (Some (text res))
  end.

(** The callback of [entries.map] in [getRegistry]. *)
Definition fetchComponent (entry : string * string) : Outcome ComponentInfo :=
  let '(cat, slg) := entry in
  match fetchRaw (indexUrl cat slg) with
  | Throw e => Throw e
  | Ok None => Ok (bareComponent cat slg)
  | Ok (Some raw) =>
      if negb (nonEmpty raw) then Ok (bareComponent cat slg)
      else
        let '(component, descr) := parseFrontmatter raw in
        Ok {| slug := slg;
              name := if nonEmpty component then component else slg;
              description := descr;
              category := cat |}
  end.

(** [getRegistry]; [now_get] and [now_set] are the two readings of the
    clock, in [cacheGet] and in [cacheSet]. *)
Definition getRegistry (now_get now_set : Z) : M (Store Value) Value :=
  λ store,
    let '(cached, store) := cacheGet now_get "registry" store in
    let build : M (Store Value) Value :=
      let* tree := await (fetchJson TREE_URL) in
      let entries := treeEntries tree in
      let* components := await (allOutcomes fetchComponent entries) in
      let registry :=
        {| components := components; bySlug := buildBySlug components |} in
      λ store,
        (Ok (VRegistry registry),
         cacheSet now_set "registry" (VRegistry registry) TTL.REGISTRY store)
    in
    match cached with
    | Some v => if truthy v then (Ok v, store) else build store
    | None => build store
    end.

(** [registry.bySlug.get(component)] and the two returns that follow it;
    on a cached value that is no registry the property access is a
    [TypeError]. *)
Definition locate (component : string) (registry : Value)
  : M (Store Value) (option Location) :=
  match registry with
  | VRegistry r =>
      match bySlug r !! component with
      | Some info =>
          ret (Some {| loc_category := category info; loc_slug := slug info |})
      | None => ret None
      end
  | _ => throw TypeError
  end.

(** [resolveCategory(component, category?)]; an omitted [category] is
    [None], and [if (category)] tests its truthiness. *)
Definition resolveCategory (component : string) (cat : option string)
    (now_get now_set : Z) : M (Store Value) (option Location) :=
  let viaRegistry : M (Store Value) (option Location) :=
    let* registry := getRegistry now_get now_set in
    locate component registry in
  match cat with
  | Some c =>
      if nonEmpty c
      then ret (Some {| loc_category := c; loc_slug := component |})
      else viaRegistry
  | None => viaRegistry
  end.

(** [suggestComponent(input, registry)] *)
Definition suggestComponent (input : string) (registry : ComponentRegistry)
  : list string :=
  let lower := toLowerCase input in
  map slug
    (take 5
       (List.filter
          (λ c, includes (slug c) lower || includes (toLowerCase (name c)) lower)
          (components registry))).

(** [fetchMdx(category, component, tab)]; the result [None] is [null]. *)
Definition fetchMdx (cat component : string) (tab : Tab)
    (now_get now_set : Z) : M (Store Value) (option Value) :=
  let cacheKey := mdxKey cat component (tabName tab) in
  λ store,
    let '(cached, store) := cacheGet now_get cacheKey store in
    let load : M (Store Value) (option Value) :=
      let* content := await (fetchRaw (mdxUrl cat component (tabName tab))) in
      match content with
      | Some txt =>
          if nonEmpty txt
          then λ store,
                 (Ok (Some (VString txt)),
                  cacheSet now_set cacheKey (VString txt) TTL.MDX store)
          else ret (Some (VString txt))
      | None => ret None
      end
    in
    match cached with
    | Some v => if truthy v then (Ok (Some v), store) else load store
    | None => load store
    end.

(** [fetchExample(category, component, name = "default")]; an omitted
    [name] is [None]. *)
Definition fetchExample (cat component : string) (nm : option string)
    (now_get now_set : Z) : M (Store Value) (option Value) :=
  let nm := default "default" nm in
  let cacheKey := exampleKey cat component nm in
  λ store,
    let '(cached, store) := cacheGet now_get cacheKey store in
    let load : M (Store Value) (option Value) :=
      let* content := await (fetchRaw (exampleUrl cat component nm)) in
      match content with
      | Some txt =>
          if nonEmpty txt
          then λ store,
                 (Ok (Some (VString txt)),
                  cacheSet now_set cacheKey (VString txt) TTL.EXAMPLE store)
          else ret (Some (VString txt))
      | None => ret None
      end
    in
    match cached with
    | Some v => if truthy v then (Ok (Some v), store) else load store
    | None => load store
    end.

End GitHub.

(* ===================================================================== *)
(** * services/scraper.ts *)
(* ===================================================================== *)

Definition SITE_BASE : string := "https://mittwald.github.io/flow".

Definition developKey (cat component : string) : string :=
  "develop:" +:+ cat +:+ "/" +:+ component.

Definition developUrl (cat component : string) : string :=
  SITE_BASE +:+ "/04-components/" +:+ cat +:+ "/" +:+ component +:+ "/develop".

(** What the browser answers to the calls made on one accordion element,
    in the order of the loop body. *)
Record Accordion := {
  acc_heading : Outcome string;          (* evaluate: heading text *)
  acc_isExpanded : Outcome bool;         (* evaluate: classList.contains *)
  acc_button : Outcome bool;             (* $(".flow--accordion--header-button") found *)
  acc_click : Outcome unit;              (* button.click() *)
  acc_waitForSelector : Outcome unit;    (* accordion.waitForSelector, 5 s *)
  acc_props : Outcome (list PropertyInfo);  (* evaluate: the rows of its table *)
}.

(** What Playwright answers during one call of [scrapeDevelop]. *)
Record Playwright := {
  isConnected : bool;                       (* browser.isConnected() *)
  launch : Outcome unit;                    (* chromium.launch *)
  newContext : Outcome unit;                (* b.newContext() *)
  route : Outcome unit;                     (* context.route *)
  newPage : Outcome unit;                   (* context.newPage() *)
  goto : string → Outcome unit;             (* page.goto(url), 30 s *)
  waitForSelector : Outcome unit;           (* page.waitForSelector, 15 s *)
  extractTable : Outcome (list PropertyInfo);  (* the main table *)
  accordions : Outcome (list Accordion);    (* page.$$ *)
  close : Outcome unit;                     (* context.close() *)
}.

(** The state [scraper.ts] works on: the cache, the module-level [browser]
    handle, and the browsing contexts that are open in the browser. *)
Record World := {
  store : Store Value;
  browser : bool;               (* [browser !== null] *)
  openContexts : gset nat;
  nextContext : nat;
}.

Definition withStore (f : Store Value → Store Value) (w : World) : World :=
  {| store := f (store w); browser := browser w;
     openContexts := openContexts w; nextContext := nextContext w |}.

Section Scraper.

Variable pw : Playwright.

(** [getBrowser] *)
Definition getBrowser : M World unit :=
  λ w,
    if negb (browser w) || negb (isConnected pw) then
      match launch pw with
      | Ok _ =>
          (Ok (), {| store := store w; browser := true;
                     openContexts := openContexts w;
                     nextContext := nextContext w |})
      | Throw e => (Throw e, w)
      end
    else (Ok (), w).

(** [b.newContext()]: a context with a fresh identity is open afterwards. *)
Definition openContext : M World nat :=
  λ w,
    match newContext pw with
    | Ok _ =>
        (Ok (nextContext w),
         {| store := store w; browser := browser w;
            openContexts := {[nextContext w]} ∪ openContexts w;
            nextContext := S (nextContext w) |})
    | Throw e => (Throw e, w)
    end.

(** [context.close()] *)
Definition closeContext (ctx : nat) : M World unit :=
  λ w,
    match close pw with
    | Ok _ =>
        (Ok (), {| store := store w; browser := browser w;
                   openContexts := openContexts w ∖ {[ctx]};
                   nextContext := nextContext w |})
    | Throw e => (Throw e, w)
    end.

(** The body of [for (const accordion of accordions)]: the sections
    collected so far, extended by what this accordion yields. *)
Definition scrapeAccordion (acc : Accordion) (sections : list PropertiesSection)
  : M World (list PropertiesSection) :=
  let* hd := await (acc_heading acc) in
  let* isExpanded := await (acc_isExpanded acc) in
  (if negb isExpanded then
     let* button := await (acc_button acc) in
     if button then
       await (acc_click acc);;
       catchIgnore (await (acc_waitForSelector acc))
     else ret ()
   else ret ());;
  let* props := await (acc_props acc) in
  match props with
  | [] => ret sections
  | _ :: _ =>
      ret (sections ++
           [{| heading := if nonEmpty hd then hd else "Other";
               properties := props |}])
  end.

Fixpoint scrapeAccordions (accs : list Accordion) (sections : list PropertiesSection)
  : M World (list PropertiesSection) :=
  match accs with
  | [] => ret sections
  | acc :: rest =>
      let* sections := scrapeAccordion acc sections in
      scrapeAccordions rest sections
  end.

(** The body of the [try] block of [scrapeDevelop]. *)
Definition guardedBody (cat component : string) (now_set : Z) : M World Value :=
  await (goto pw (developUrl cat component));;
  await (waitForSelector pw);;
  let* mainProps := await (extractTable pw) in
  let sections :=
    match mainProps with
    | [] => []
    | _ :: _ => [{| heading := "Properties"; properties := mainProps |}]
    end in
  let* accs := await (accordions pw) in
  let* sections := scrapeAccordions accs sections in
  let data := {| sections := sections |} in
  λ w,
    (Ok (VDevelop data),
     withStore (cacheSet now_set (developKey cat component) (VDevelop data)
                  TTL.DEVELOP) w).

(** [scrapeDevelop] past the cache lookup: from [getBrowser] to the end. *)
Definition scrapeFresh (cat component : string) (now_set : Z) : M World Value :=
  getBrowser;;
  let* context := openContext in
  await (route pw);;
  await (newPage pw);;
  tryFinally (guardedBody cat component now_set) (closeContext context).

(** [scrapeDevelop(category, component)] *)
Definition scrapeDevelop (cat component : string) (now_get now_set : Z)
  : M World Value :=
  let cacheKey := developKey cat component in
  λ w,
    let '(cached, st) := cacheGet now_get cacheKey (store w) in
    let w := withStore (λ _, st) w in
    match cached with
    | Some v => if truthy v then (Ok v, w) else scrapeFresh cat component now_set w
    | None => scrapeFresh cat component now_set w
    end.

End Scraper.

(** The table row of one property in [formatDevelopData]. *)
Definition formatRow (prop : PropertyInfo) : string :=
  let escapedType := escapePipes (prop_type prop) in
  let escapedDesc := escapePipes (prop_description prop) in
  let escapedDefault := escapePipes (prop_default prop) in
  "| `" +:+ prop_name prop +:+ "` | " +:+ escapedType +:+ " | "
  +:+ escapedDefault +:+ " | " +:+ escapedDesc +:+ " |".

(** What one section pushes to [parts]. *)
Definition formatSection (section : PropertiesSection) : list string :=
  [ "## " +:+ heading section +:+ newline;
    "| Property | Type | Default | Description |";
    "|----------|------|---------|-------------|" ]
  ++ map formatRow (properties section)
  ++ [""].

(** [formatDevelopData(data)] *)
Definition formatDevelopData (data : DevelopData) : string :=
  match sections data with
  | [] => "No property data found for this component."
  | _ :: _ => join newline (concat (map formatSection (sections data)))
  end.

(* ===================================================================== *)
(** * Vocabulary of the statements *)
(* ===================================================================== *)

(** [cacheGet(key)] at [now] yields nothing the callers' [if (cached)]
    accepts: no entry, an expired one, or a falsy value. *)
Definition cacheMissed (now : Z) (key : string) (store : Store Value) : Prop :=
  match fst (cacheGet now key store) with
  | Some v => truthy v = false
  | None => True
  end.

(** The tree listing fails: no connection, a non-success status, or a body
    that is no tree document. *)
Definition treeListingFails (fetch : string → FetchResult) : Prop :=
  match fetch TREE_URL with
  | Rejected _ => True
  | Resolved res => ok res = false ∨ json res = None
  end.

(** A raw fetch fails with something other than a 404. *)
Definition rawFails (fetch : string → FetchResult) (url : string) : Prop :=
  match fetch url with
  | Rejected _ => True
  | Resolved res => status res ≠ 404 ∧ ok res = false
  end.

(** A raw fetch is answered with 404. *)
Definition rawNotFound (fetch : string → FetchResult) (url : string) : Prop :=
  match fetch url with
  | Rejected _ => False
  | Resolved res => status res = 404
  end.

(** A raw fetch is answered with a success status and the body [body]. *)
Definition rawSucceeds (fetch : string → FetchResult) (url body : string) : Prop :=
  match fetch url with
  | Rejected _ => False
  | Resolved res => ok res = true ∧ text res = body
  end.

(** No metadata fetch of the tree fails with something other than a 404. *)
Definition metadataSettles (fetch : string → FetchResult)
    (entries : list (string * string)) : Prop :=
  Forall (λ entry, ¬ rawFails fetch (indexUrl entry.1 entry.2)) entries.

(** The last component of the list that carries the slug [s]. *)
Definition lastWithSlug (s : string) (cs : list ComponentInfo)
  : option ComponentInfo :=
  last (filter (λ c, slug c = s) cs).

(* ===================================================================== *)
(** * Sample inputs *)
(* ===================================================================== *)

(** A tree with the slug [button] under two categories, one path that is
    nested too deep and one that is no index document. *)
Definition sampleTree : list TreeEntry :=
  [ {| path := "README.md"; type := "blob" |};
    {| path := "apps/docs/src/content/04-components/actions/button/index.mdx";
       type := "blob" |};
    {| path := "apps/docs/src/content/04-components/forms/text-field/index.mdx";
       type := "blob" |};
    {| path := "apps/docs/src/content/04-components/forms/text-field/overview.mdx";
       type := "blob" |};
    {| path := "apps/docs/src/content/04-components/forms/button/index.mdx";
       type := "blob" |};
    {| path := "apps/docs/src/content/04-components/forms/a/b/index.mdx";
       type := "blob" |} ].

Definition okResponse (body : string) (tree : option (list TreeEntry)) : Response :=
  {| status := 200; statusText := "OK"; text := body; json := tree |}.

Definition notFoundResponse : Response :=
  {| status := 404; statusText := "Not Found"; text := "404: Not Found";
     json := None |}.

Definition serverErrorResponse : Response :=
  {| status := 500; statusText := "Internal Server Error"; text := "";
     json := None |}.

(** A network that serves [sampleTree], the index document of
    [actions/button] and the overview of [forms/text-field]; every other
    document is a 404. *)
Definition sampleFetch (url : string) : FetchResult :=
  if decide (url = TREE_URL) then Resolved (okResponse "" (Some sampleTree))
  else if decide (url = indexUrl "actions" "button")
  then Resolved (okResponse "---" None)
  else if decide (url = mdxUrl "forms" "text-field" "overview")
  then Resolved (okResponse "# Text field" None)
  else if decide (url = mdxUrl "forms" "text-field" "guidelines")
  then Resolved (okResponse "" None)
  else Resolved notFoundResponse.

(** A network without connection. *)
Definition offline (url : string) : FetchResult := Rejected "fetch failed".

(** A network on which every request is answered with status 500. *)
Definition brokenServer (url : string) : FetchResult := Resolved serverErrorResponse.

(** A network that serves [sampleTree] and answers the request for the
    index document of [forms/text-field] with status 500; every other
    document is a 404. *)
Definition flakyFetch (url : string) : FetchResult :=
  if decide (url = TREE_URL) then Resolved (okResponse "" (Some sampleTree))
  else if decide (url = indexUrl "forms" "text-field")
  then Resolved serverErrorResponse
  else Resolved notFoundResponse.

(** A network that answers every request with the same document. *)
Definition sameDocument (url : string) : FetchResult :=
  Resolved (okResponse "# Document" None).

Definition sampleParse (raw : string) : string * string :=
  ("Button", "Triggers an action").

(** [suggestComponent] as the specification words it: the input matched
    without regard to case against the slug and against the display name. *)
Definition containsIgnoringCase (s input : string) : bool :=
  includes (toLowerCase s) (toLowerCase input).

Definition suggestComponent_spec (input : string) (registry : ComponentRegistry)
  : list string :=
  map slug
    (take 5
       (List.filter
          (λ c, containsIgnoringCase (slug c) input
                || containsIgnoringCase (name c) input)
          (components registry))).

(** A string without upper-case letters. *)
Definition isLowerCase (s : string) : Prop := toLowerCase s = s.

(** [registryOf cs]: the registry [getRegistry] assembles from [cs]. *)
Definition registryOf (cs : list ComponentInfo) : ComponentRegistry :=
  {| components := cs; bySlug := buildBySlug cs |}.

(** The specification's example registry, and one whose directory names
    are capitalised. *)
Definition exampleRegistry : ComponentRegistry :=
  registryOf
    [ {| slug := "button"; name := "Button"; description := ""; category := "actions" |};
      {| slug := "button-group"; name := "ButtonGroup"; description := "";
         category := "actions" |};
      {| slug := "text-field"; name := "TextField"; description := "";
         category := "forms" |} ].

Definition capitalisedRegistry : ComponentRegistry :=
  registryOf
    [ {| slug := "Button"; name := "Primary action"; description := "";
         category := "actions" |} ].

(** What [resolveCategory] answers from a registry. *)
Definition lookupLocation (component : string) (r : ComponentRegistry)
  : option Location :=
  match bySlug r !! component with
  | Some info => Some {| loc_category := category info; loc_slug := slug info |}
  | None => None
  end.

(** The pipes of a rendered line that delimit columns: those not directly
    preceded by a backslash. [escaped] tells whether the character before
    the string is a backslash. *)
Fixpoint unescapedPipesFrom (escaped : bool) (s : string) : nat :=
  match s with
  | EmptyString => 0
  | String c s' =>
      ((if Ascii.eqb c "|" && negb escaped then 1 else 0)
       + unescapedPipesFrom (Ascii.eqb c "\") s')%nat
  end.

Definition unescapedPipes (s : string) : nat := unescapedPipesFrom false s.

(** Whether a string, continuing text that ended as [escaped] tells, ends
    in a backslash. *)
Fixpoint endsInBackslash (escaped : bool) (s : string) : bool :=
  match s with
  | EmptyString => escaped
  | String c s' => endsInBackslash (Ascii.eqb c "\") s'
  end.

(** The four-column header row has five delimiting pipes. *)
Definition tableHeader : string := "| Property | Type | Default | Description |".

(** A property whose name contains a pipe, as [extractTable] returns it
    for a first cell with the text [a|b]. *)
Definition pipeInName : PropertyInfo :=
  {| prop_name := "a|b"; prop_type := "string | number"; prop_default := "-";
     prop_required := false; prop_description := "either | or" |}.

Definition pipeInNameData : DevelopData :=
  {| sections := [ {| heading := "Properties"; properties := [pipeInName] |} ] |}.

Definition unionTyped : PropertyInfo :=
  {| prop_name := "size"; prop_type := "string | number"; prop_default := "-";
     prop_required := false; prop_description := "" |}.

(** A process that has not started a browser and holds an empty cache. *)
Definition freshWorld : World :=
  {| store := ∅; browser := false; openContexts := ∅; nextContext := 0 |}.

(** A page with a properties table and one collapsed accordion whose table
    never shows up. *)
Definition samplePage : Playwright :=
  {| isConnected := true;
     launch := Ok ();
     newContext := Ok ();
     route := Ok ();
     newPage := Ok ();
     goto := λ _, Ok ();
     waitForSelector := Ok ();
     extractTable := Ok [unionTyped];
     accordions :=
       Ok [ {| acc_heading := Ok "Events";
               acc_isExpanded := Ok false;
               acc_button := Ok true;
               acc_click := Ok ();
               acc_waitForSelector := Throw (BrowserError "Timeout 5000ms exceeded.");
               acc_props := Ok [] |} ];
     close := Ok () |}.

(** The same browser, losing its connection after the context was created:
    [context.newPage()] rejects. *)
Definition crashingPage : Playwright :=
  {| isConnected := true;
     launch := Ok ();
     newContext := Ok ();
     route := Ok ();
     newPage := Throw (BrowserError "browserContext.newPage: Target closed");
     goto := λ _, Ok ();
     waitForSelector := Ok ();
     extractTable := Ok [unionTyped];
     accordions := Ok [];
     close := Ok () |}.

(** A browser that cannot be started. *)
Definition noBrowser : Playwright :=
  {| isConnected := false;
     launch := Throw (BrowserError "browserType.launch: Executable doesn't exist");
     newContext := Throw (BrowserError "no browser");
     route := Throw (BrowserError "no browser");
     newPage := Throw (BrowserError "no browser");
     goto := λ _, Throw (BrowserError "no browser");
     waitForSelector := Throw (BrowserError "no browser");
     extractTable := Throw (BrowserError "no browser");
     accordions := Throw (BrowserError "no browser");
     close := Throw (BrowserError "no browser") |}.

(* ===================================================================== *)
(** * services/github.ts, continued: parseFrontmatter and listComponents *)
(* ===================================================================== *)

(** The class [\s] on ASCII text: tab, line feed, vertical tab, form feed,
    carriage return and space. *)
Definition isSpace (c : ascii) : bool :=
  let n := nat_of_ascii c in
  ((9 <=? n) && (n <=? 13) || (n =? 32))%nat.

(** The line terminators of ASCII text: line feed and carriage return.
    With the [m] flag, [^] matches after one and [$] before one; [.]
    matches every other character. *)
Definition isLineTerminator (c : ascii) : bool :=
  let n := nat_of_ascii c in
  ((n =? 10) || (n =? 13))%nat.

(** What a greedy [\s*] skips. *)
Fixpoint dropSpaces (s : string) : string :=
  match s with
  | EmptyString => EmptyString
  | String c s' => if isSpace c then dropSpaces s' else s
  end.

(** The characters up to the end of the line. *)
Fixpoint takeLine (s : string) : string :=
  match s with
  | EmptyString => EmptyString
  | String c s' => if isLineTerminator c then EmptyString else String c (takeLine s')
  end.

Fixpoint trimEnd (s : string) : string :=
  match s with
  | EmptyString => EmptyString
  | String c s' =>
      match trimEnd s' with
      | EmptyString => if isSpace c then EmptyString else String c EmptyString
      | r => String c r
      end
  end.

(** [s.trim()] *)
Definition trim (s : string) : string := trimEnd (dropSpaces s).

(** The text before the first occurrence of [pat] in [s]: what a lazy
    [([\s\S]*?)] followed by the literal [pat] captures. *)
Fixpoint beforeFirst (pat s : string) : option string :=
  if startsWith s pat then Some EmptyString
  else match s with
       | EmptyString => None
       | String c s' => String c <$> beforeFirst pat s'
       end.

(** A search for [^rest] under the [m] flag: [attempt] is tried at the
    start of the text and after every line terminator, first success
    wins. [atStart] tells whether [s] begins a line. *)
Fixpoint firstMatch (attempt : string → option string) (atStart : bool)
    (s : string) : option string :=
  match (if atStart then attempt s else None) with
  | Some g => Some g
  | None =>
      match s with
      | EmptyString => None
      | String c s' => firstMatch attempt (isLineTerminator c) s'
      end
  end.

(** The last character of [s] that is no line terminator, as a string. *)
Fixpoint lastOfLine (s : string) : option string :=
  match s with
  | EmptyString => None
  | String c s' =>
      match lastOfLine s' with
      | Some g => Some g
      | None => if isLineTerminator c then None else Some (String c EmptyString)
      end
  end.

(** The group of [\s*(.+)$] on the text after [component:]. The greedy
    [\s*] skips all white space; [(.+)] then takes the rest of that line.
    When nothing but white space follows, [\s*] gives characters back
    until [(.+)] finds one that is no line terminator: the last such
    character, alone on its line end. *)
Definition componentGroup (rest : string) : option string :=
  match takeLine (dropSpaces rest) with
  | EmptyString => lastOfLine rest
  | g => Some g
  end.

(** The group of [\s*([\s\S]*?)(?=\n[a-z]|\n*$)] on the text after
    [description:]. Under the [m] flag [$] holds before every line
    terminator, so the lazy group ends at the first one. *)
Definition descriptionGroup (rest : string) : string :=
  takeLine (dropSpaces rest).

(** [parseFrontmatter(mdx)]: the pair is ([component], [description]). *)
Definition parseFrontmatter (mdx : string) : string * string :=
  match stripPrefix ("---" +:+ newline) mdx ≫= beforeFirst (newline +:+ "---") with
  | None => (EmptyString, EmptyString)
  | Some yaml =>
      let componentMatch :=
        firstMatch (λ s, stripPrefix "component:" s ≫= componentGroup) true yaml in
      let descMatch :=
        firstMatch (λ s, descriptionGroup <$> stripPrefix "description:" s) true yaml in
      let descr :=
        match descMatch with
        | Some g => join " " (List.filter nonEmpty (map trim (split "010" g)))
        | None => EmptyString
        end in
      (default EmptyString (trim <$> componentMatch), descr)
  end.

Section GitHubListing.

Variable fetch : string → FetchResult.
Variable parseFrontmatter : string → string * string.

(** [listComponents(category?)]. On a cached value that is no registry,
    [registry.components] is [undefined]: filtering it is a [TypeError],
    returning it resolves to [undefined], here [None]. *)
Definition listComponents (cat : option string) (now_get now_set : Z)
  : M (Store Value) (option (list ComponentInfo)) :=
  let* registry := getRegistry fetch parseFrontmatter now_get now_set in
  let comps :=
    match registry with
    | VRegistry r => Some (components r)
    | _ => None
    end in
  match cat with
  | Some c =>
      if nonEmpty c then
        match comps with
        | Some cs => ret (Some (List.filter (λ ci, bool_decide (category ci = c)) cs))
        | None => throw TypeError
        end
      else ret comps
  | None => ret comps
  end.

End GitHubListing.

(* ===================================================================== *)
(** * services/scraper.ts, continued: closeBrowser *)
(* ===================================================================== *)

(** [closeBrowser()]; [closing] is what [browser.close()] settles to. A
    browser that closes takes its contexts with it. *)
Definition closeBrowser (closing : Outcome unit) : M World unit :=
  λ w,
    if browser w then
      match closing with
      | Ok _ =>
          (Ok (), {| store := store w; browser := false;
                     openContexts := ∅; nextContext := nextContext w |})
      | Throw e => (Throw e, w)
      end
    else (Ok (), w).

(* ===================================================================== *)
(** * Vocabulary of the further statements *)
(* ===================================================================== *)

(** The kind of value each family of cache keys is meant to hold: a
    registry under ["registry"], a non-empty text under the [mdx:] and
    [example:] keys, scraped data under the [develop:] keys. *)
Definition wellTyped (key : string) (v : Value) : Prop :=
  match v with
  | VRegistry _ => key = "registry"
  | VString s =>
      s ≠ "" ∧ (startsWith key "mdx:" = true ∨ startsWith key "example:" = true)
  | VDevelop _ => startsWith key "develop:" = true
  end.

Definition storeTyped (st : Store Value) : Prop :=
  ∀ key entry, st !! key = Some entry → wellTyped key (value entry).

(** A section as [scrapeDevelop] records it: rows, under a heading. *)
Definition filledSection (section : PropertiesSection) : Prop :=
  properties section ≠ [] ∧ heading section ≠ "".

(** The section one accordion contributes, if any. *)
Definition accordionSection (acc : Accordion) : option PropertiesSection :=
  match acc_heading acc, acc_props acc with
  | Ok hd, Ok (p :: ps) =>
      Some {| heading := if nonEmpty hd then hd else "Other";
              properties := p :: ps |}
  | _, _ => None
  end.

(** The accordion [acc] with another answer to the expansion wait. *)
Definition withWait (answer : Outcome unit) (acc : Accordion) : Accordion :=
  {| acc_heading := acc_heading acc;
     acc_isExpanded := acc_isExpanded acc;
     acc_button := acc_button acc;
     acc_click := acc_click acc;
     acc_waitForSelector := answer;
     acc_props := acc_props acc |}.

(** The browser [pw] with another answer to [chromium.launch]. *)
Definition withLaunch (answer : Outcome unit) (pw : Playwright) : Playwright :=
  {| isConnected := isConnected pw;
     launch := answer;
     newContext := newContext pw;
     route := route pw;
     newPage := newPage pw;
     goto := goto pw;
     waitForSelector := waitForSelector pw;
     extractTable := extractTable pw;
     accordions := accordions pw;
     close := close pw |}.

(** Text without a line terminator, and text without white space at
    either end. *)
Definition singleLine (s : string) : Prop := takeLine s = s.

Definition trimmed (s : string) : Prop := trim s = s.

(** The path of the index document of [(cat, slg)] in the tree. *)
Definition indexPath (cat slg : string) : string :=
  CONTENT_BASE +:+ "/" +:+ cat +:+ "/" +:+ slg +:+ "/index.mdx".

(** A frontmatter header with the two keys, followed by [body]. *)
Definition frontmatter (component descr body : string) : string :=
  "---" +:+ newline +:+ "component: " +:+ component +:+ newline
  +:+ "description: " +:+ descr +:+ newline +:+ "---" +:+ body.

(** A document whose description runs over two lines. *)
Definition foldedDocument : string :=
  "---" +:+ newline +:+ "component: Button" +:+ newline
  +:+ "description: Triggers an action" +:+ newline
  +:+ "  when it is pressed." +:+ newline +:+ "---" +:+ newline +:+ "# Button".

(** A network that serves the first four paths of [sampleTree], in which
    no slug repeats, and answers every document request with 404. *)
Definition uniqueTree : list TreeEntry := take 4 sampleTree.

Definition uniqueFetch (url : string) : FetchResult :=
  if decide (url = TREE_URL) then Resolved (okResponse "" (Some uniqueTree))
  else Resolved notFoundResponse.

(** A page whose extraction completes and whose context then fails to
    close. *)
Definition stickyPage : Playwright :=
  {| isConnected := true;
     launch := Ok ();
     newContext := Ok ();
     route := Ok ();
     newPage := Ok ();
     goto := λ _, Ok ();
     waitForSelector := Ok ();
     extractTable := Ok [unionTyped];
     accordions := Ok [];
     close := Throw (BrowserError "browserContext.close: Target closed") |}.

(* ===================================================================== *)
(** * index.ts: the tool get_component_develop *)
(* ===================================================================== *)

(** What a tool returns: the text of its one content item and the
    [isError] flag, [false] when the flag is absent. *)
Record ToolResult := {
  resultText : string;
  resultIsError : bool;
}.

(** The double quote, as a string. *)
Definition quote : string := String "034" EmptyString.

(** A number in a template literal: a status is an integer and prints in
    decimal. *)
Definition showNumber (n : Z) : string := NilZero.string_of_int (Z.to_int n).

(** A computation on the cache, run on the world that holds it. *)
Definition onStore {A} (m : M (Store Value) A) : M World A :=
  λ w, let '(r, st) := m (store w) in (r, withStore (λ _, st) w).

(** The [catch] block of the tool, from the message on. *)
Definition developFailure (component msg : string) : ToolResult :=
  if includes msg "browserType.launch" then
    {| resultText :=
         "Browser launch failed. Make sure Playwright Chromium is installed:"
         +:+ newline +:+ "  bunx playwright install chromium" +:+ newline +:+ newline
         +:+ "Original error: " +:+ msg;
       resultIsError := true |}
  else if includes msg "Timeout" then
    {| resultText :=
         "Timed out loading property tables for " +:+ quote +:+ component +:+ quote
         +:+ ". The develop page may not have rendered in time.";
       resultIsError := true |}
  else
    {| resultText := "Error fetching develop info: " +:+ msg;
       resultIsError := true |}.

(** The answer for an identifier that does not resolve. *)
Definition notFound (component : string) (suggestions : list string) : ToolResult :=
  {| resultText :=
       "Component " +:+ quote +:+ component +:+ quote +:+ " not found."
       +:+ match suggestions with
           | [] => ""
           | _ :: _ => " Did you mean: " +:+ join ", " suggestions +:+ "?"
           end;
     resultIsError := true |}.

Section DevelopTool.

Variable fetch : string → FetchResult.
Variable parseFrontmatter : string → string * string.
Variable pw : Playwright.

(** [cleanMdx] of [mdx-cleaner.ts], a total function of the text, left
    abstract. *)
Variable cleanMdx : string → string.

(** The messages of the errors the engine raises itself: a property
    access on [undefined], and a body that [res.json()] cannot read. *)
Variable typeErrorMessage : string.
Variable bodyErrorMessage : string.

(** [error.message]: the template literals of [fetchJson] and [fetchRaw],
    the reason of a failed [fetch], the message of a Playwright error. *)
Definition errorMessage (e : Error) : string :=
  match e with
  | GitHubApiError st txt => "GitHub API error: " +:+ showNumber st +:+ " " +:+ txt
  | GitHubRawFetchError st txt =>
      "GitHub raw fetch error: " +:+ showNumber st +:+ " " +:+ txt
  | FetchRejected reason => reason
  | BodyError => bodyErrorMessage
  | TypeError => typeErrorMessage
  | BrowserError message => message
  end.

(** The [try] block of the tool; the eight times are the clock readings
    of the four cached operations, in the order of the calls. *)
Definition developBody (component : string) (category : option string)
    (t1 t2 t3 t4 t5 t6 t7 t8 : Z) : M World ToolResult :=
  let* resolved :=
    onStore (resolveCategory fetch parseFrontmatter component category t1 t2) in
  match resolved with
  | None =>
      let* registry := onStore (getRegistry fetch parseFrontmatter t3 t4) in
      match registry with
      | VRegistry r => ret (notFound component (suggestComponent component r))
      | _ => throw TypeError
      end
  | Some loc =>
      let* registry := onStore (getRegistry fetch parseFrontmatter t3 t4) in
      let* info :=
        match registry with
        | VRegistry r => ret (bySlug r !! loc_slug loc)
        | _ => throw TypeError
        end in
      let* mdx := onStore (fetchMdx fetch (loc_category loc) (loc_slug loc) develop t5 t6) in
      let* prose :=
        match mdx with
        | None => ret ""
        | Some (VString txt) => ret (if nonEmpty txt then cleanMdx txt else "")
        | Some _ => throw TypeError
        end in
      let* data := scrapeDevelop pw (loc_category loc) (loc_slug loc) t7 t8 in
      let* tables :=
        match data with
        | VDevelop d => ret (formatDevelopData d)
        | _ => throw TypeError
        end in
      let title :=
        "# " +:+ match info with Some i => name i | None => component end
        +:+ " — Develop" +:+ newline in
      let parts :=
        [title] ++ (if nonEmpty prose then [prose; ""] else []) ++ [tables] in
      ret {| resultText := join newline parts; resultIsError := false |}
  end.

(** The tool: every rejection of the [try] block becomes an error result. *)
Definition get_component_develop (component : string) (category : option string)
    (t1 t2 t3 t4 t5 t6 t7 t8 : Z) (w : World) : ToolResult * World :=
  match developBody component category t1 t2 t3 t4 t5 t6 t7 t8 w with
  | (Ok result, w') => (result, w')
  | (Throw e, w') => (developFailure component (errorMessage e), w')
  end.

End DevelopTool.

(** A gateway that times out on every document. *)
Definition gatewayTimeout : Response :=
  {| status := 504; statusText := "Gateway Timeout"; text := ""; json := None |}.

(** A world whose cache holds the specification's example registry until
    [expiry], with a browser running. *)
Definition registryCached (expiry : Z) : World :=
  {| store := <["registry" := {| value := VRegistry exampleRegistry;
                                 expiresAt := expiry |}]> ∅;
     browser := true; openContexts := ∅; nextContext := 0 |}.

(* ===================================================================== *)
(** * Properties of the cache *)
(* ===================================================================== *)

Section CacheFacts.

Context {V : Type}.
Implicit Types (store : Store V) (key : string) (now : Z).

Lemma cacheGet_miss now key store :
  store !! key = None → cacheGet now key store = (None, store).
Proof. intros H. unfold cacheGet. by rewrite H. Qed.

Lemma cacheGet_fresh now key e store :
  store !! key = Some e → now <= expiresAt e →
  cacheGet now key store = (Some (value e), store).
Proof.
  intros H Hle. unfold cacheGet. rewrite H.
  destruct (Z.gtb_spec now (expiresAt e)); [lia | done].
Qed.

Lemma cacheGet_stale now key e store :
  store !! key = Some e → expiresAt e < now →
  cacheGet now key store = (None, delete key store).
Proof.
  intros H Hlt. unfold cacheGet. rewrite H.
  destruct (Z.gtb_spec now (expiresAt e)); [done | lia].
Qed.

(** A lookup never adds or changes an entry. *)
Lemma cacheGet_store_subseteq now key store :
  snd (cacheGet now key store) ⊆ store.
Proof.
  unfold cacheGet. destruct (store !! key) as [e|]; [|done].
  destruct (now >? expiresAt e); simpl; [apply delete_subseteq | done].
Qed.

(** A lookup touches no other key. *)
Lemma cacheGet_other now key k store :
  k ≠ key → snd (cacheGet now key store) !! k = store !! k.
Proof.
  intros Hne. unfold cacheGet. destruct (store !! key) as [e|]; [|done].
  destruct (now >? expiresAt e); simpl; [by rewrite lookup_delete_ne | done].
Qed.

(** After a miss there is no entry under the key. *)
Lemma cacheGet_None_lookup now key store :
  fst (cacheGet now key store) = None →
  snd (cacheGet now key store) !! key = None.
Proof.
  unfold cacheGet. destruct (store !! key) as [e|] eqn:E; [|done].
  destruct (now >? expiresAt e); simpl; [by rewrite lookup_delete_eq | done].
Qed.

(** A hit leaves the store as it was. *)
Lemma cacheGet_Some_store now key store v :
  fst (cacheGet now key store) = Some v → snd (cacheGet now key store) = store.
Proof.
  unfold cacheGet. destruct (store !! key) as [e|] eqn:E; [|done].
  by destruct (now >? expiresAt e).
Qed.

Lemma cacheSet_lookup now key v ttl store :
  cacheSet now key v ttl store !! key
  = Some {| value := v; expiresAt := now + ttl |}.
Proof. unfold cacheSet. apply lookup_insert_eq. Qed.

(** Overwrite semantics: the later [cacheSet] of a key wins. *)
Lemma cacheSet_overwrite now1 now2 key v1 v2 ttl1 ttl2 store :
  cacheSet now2 key v2 ttl2 (cacheSet now1 key v1 ttl1 store)
  = cacheSet now2 key v2 ttl2 store.
Proof. unfold cacheSet. apply insert_insert_eq. Qed.

Lemma runOps_app ops1 ops2 store :
  runOps (ops1 ++ ops2) store = runOps ops2 (runOps ops1 store).
Proof. apply fold_left_app. Qed.

Lemma runOp_keeps key e op store :
  keepsEntry key (expiresAt e) op →
  store !! key = Some e → runOp store op !! key = Some e.
Proof.
  intros Hk Hs. destruct op as [now k | now k v ttl]; simpl in *.
  - destruct (decide (k = key)) as [->|Hne].
    + destruct Hk as [Hk|Hk]; [done|].
      by rewrite (cacheGet_fresh _ _ _ _ Hs Hk).
    + by rewrite cacheGet_other.
  - unfold cacheSet. by rewrite lookup_insert_ne.
Qed.

Lemma runOps_keeps key e ops store :
  Forall (keepsEntry key (expiresAt e)) ops →
  store !! key = Some e → runOps ops store !! key = Some e.
Proof.
  intros Hall. revert store.
  induction Hall as [|op ops Hop _ IH]; intros store Hs; [done|].
  simpl. apply IH. by apply runOp_keeps.
Qed.

Lemma runOps_never_set key ops store :
  Forall (notSetOf key) ops →
  store !! key = None → runOps ops store !! key = None.
Proof.
  intros Hall. revert store.
  induction Hall as [|op ops Hop _ IH]; intros store Hs; [done|].
  simpl. apply IH. destruct op as [now k | now k v ttl]; simpl in *.
  - destruct (decide (k = key)) as [->|Hne].
    + by rewrite cacheGet_miss.
    + by rewrite cacheGet_other.
  - unfold cacheSet. by rewrite lookup_insert_ne.
Qed.

(** C6. After [cacheSet(key, v, ttl)] at time [t0], and whatever other cache
    traffic [ops] follows that neither sets [key] again nor looks it up
    after its expiry, [cacheGet(key)] returns [v] at every time strictly
    before [t0 + ttl], and at every time strictly after [t0 + ttl] it
    reports a miss and leaves the store without the entry; a key that was
    never set is a miss, with the store unchanged. *)
Theorem cacheGet_within_ttl store t0 key v ttl ops now :
  Forall (keepsEntry key (t0 + ttl)) ops →
  let st := runOps ops (cacheSet t0 key v ttl store) in
  (now < t0 + ttl → cacheGet now key st = (Some v, st)) ∧
  (t0 + ttl < now →
     cacheGet now key st = (None, delete key st) ∧
     snd (cacheGet now key st) !! key = None) ∧
  (∀ history : list (CacheOp V),
     Forall (notSetOf key) history →
     cacheGet now key (runOps history ∅) = (None, runOps history ∅)).
Proof.
  intros Hall st.
  set (e := {| value := v; expiresAt := t0 + ttl |}).
  assert (Hst : st !! key = Some e).
  { apply (runOps_keeps key e); [done | apply cacheSet_lookup]. }
  split; [|split].
  - intros Hlt. rewrite (cacheGet_fresh now key e st Hst); [done | simpl; lia].
  - intros Hgt. rewrite (cacheGet_stale now key e st Hst); [|simpl; lia].
    split; [done | apply lookup_delete_eq].
  - intros history Hh. apply cacheGet_miss.
    by apply runOps_never_set.
Qed.

(** C10. At the expiry instant itself, [now = expiresAt], the entry is
    still served and stays in the store; a stored entry is reported as a
    miss exactly when [now] is strictly after [expiresAt]. *)
Theorem cacheGet_at_expiry store key e :
  store !! key = Some e →
  cacheGet (expiresAt e) key store = (Some (value e), store) ∧
  (∀ now, fst (cacheGet now key store) = None ↔ expiresAt e < now).
Proof.
  intros Hs. split.
  - apply cacheGet_fresh; [done | lia].
  - intros now. destruct (Z.lt_ge_cases (expiresAt e) now) as [Hlt|Hge].
    + rewrite (cacheGet_stale now key e store Hs Hlt). done.
    + rewrite (cacheGet_fresh now key e store Hs); [|lia].
      simpl. split; [done | lia].
Qed.

End CacheFacts.

Lemma cacheGet_within_ttl_witness :
  Forall (keepsEntry "button" (1000 + 500))
    [OpGet 1200 "button"; OpSet 1300 "link" 8%nat 10; OpGet 9999 "link"] ∧
  cacheGet 1499 "button"
    (runOps [OpGet 1200 "button"; OpSet 1300 "link" 8%nat 10; OpGet 9999 "link"]
       (cacheSet 1000 "button" 7%nat 500 ∅))
  = (Some 7%nat,
     runOps [OpGet 1200 "button"; OpSet 1300 "link" 8%nat 10; OpGet 9999 "link"]
       (cacheSet 1000 "button" 7%nat 500 ∅)).
Proof.
  assert (H : Forall (keepsEntry (V:=nat) "button" (1000 + 500))
    [OpGet 1200 "button"; OpSet 1300 "link" 8%nat 10; OpGet 9999 "link"]).
  { apply Forall_cons_2; [right; lia|].
    apply Forall_cons_2; [discriminate|].
    apply Forall_cons_2; [left; discriminate|].
    apply Forall_nil_2. }
  split; [exact H|].
  destruct (cacheGet_within_ttl ∅ 1000 "button" 7%nat 500 _ 1499 H) as [Hget _].
  apply Hget. lia.
Defined.

Lemma cacheGet_at_expiry_witness :
  cacheGet (1000 + 500) "button" (cacheSet 1000 "button" 7%nat 500 ∅)
  = (Some 7%nat, cacheSet 1000 "button" 7%nat 500 ∅).
Proof.
  apply (cacheGet_at_expiry (cacheSet 1000 "button" 7%nat 500 ∅) "button"
           {| value := 7%nat; expiresAt := 1000 + 500 |}).
  apply cacheSet_lookup.
Defined.

(* ===================================================================== *)
(** * Properties of the registry builder *)
(* ===================================================================== *)

Lemma allOutcomes_Ok_Forall2 {A B} (f : A → Outcome B) xs ys :
  allOutcomes f xs = Ok ys ↔ Forall2 (λ x y, f x = Ok y) xs ys.
Proof.
  revert ys. induction xs as [|x xs IH]; intros ys; simpl.
  - split.
    + intros [= <-]. constructor.
    + intros H. by inversion H.
  - split.
    + destruct (f x) as [b|e] eqn:Ef; [|done].
      destruct (allOutcomes f xs) as [bs|e] eqn:Eall; [|done].
      intros [= <-]. constructor; [done|]. by apply IH.
    + intros H. inversion H as [|? y ? ys' Hxy Hrest]; subst.
      rewrite Hxy. apply IH in Hrest. by rewrite Hrest.
Qed.

Lemma allOutcomes_total {A B} (f : A → Outcome B) xs :
  Forall (λ x, ∃ y, f x = Ok y) xs → ∃ ys, allOutcomes f xs = Ok ys.
Proof.
  induction 1 as [|x xs [y Hy] _ [ys IH]]; simpl; [by eexists|].
  rewrite Hy, IH. by eexists.
Qed.

Lemma allOutcomes_Throw {A B} (f : A → Outcome B) xs :
  Exists (λ x, ∃ e, f x = Throw e) xs →
  ∃ x e, x ∈ xs ∧ f x = Throw e ∧ allOutcomes f xs = Throw e.
Proof.
  induction xs as [|x xs IH]; intros Hex; [by inversion Hex|].
  simpl. destruct (f x) as [b|e] eqn:Hfx.
  - destruct IH as (x' & e & Hin & Hx' & Hall).
    { inversion Hex as [? ? [e He]|]; subst; [congruence | done]. }
    exists x', e. rewrite Hall. split; [by right | done].
  - exists x, e. split; [by left | done].
Qed.

Section RegistryFacts.

Variable fetch : string → FetchResult.
Variable parseFrontmatter : string → string * string.

Lemma fetchRaw_Throw_iff url :
  (∃ e, fetchRaw fetch url = Throw e) ↔ rawFails fetch url.
Proof.
  unfold fetchRaw, rawFails. destruct (fetch url) as [reason|res].
  - split; [done | by eexists].
  - destruct (Z.eqb_spec (status res) 404) as [E|E].
    + split; [by intros [? ?] | by intros [? _]].
    + destruct (ok res); simpl.
      * split; [by intros [? ?] | by intros [_ ?]].
      * split; [done | by eexists].
Qed.

Lemma fetchRaw_not_found url :
  rawNotFound fetch url → fetchRaw fetch url = Ok None.
Proof.
  unfold fetchRaw, rawNotFound. destruct (fetch url) as [|res]; [done|].
  intros ->. done.
Qed.

Lemma fetchRaw_succeeds url body :
  rawSucceeds fetch url body → fetchRaw fetch url = Ok (Some body).
Proof.
  unfold fetchRaw, rawSucceeds, ok.
  destruct (fetch url) as [|res]; [done|]. intros [Hok <-].
  destruct (Z.eqb_spec (status res) 404) as [E|E].
  - rewrite E in Hok. done.
  - by rewrite Hok.
Qed.

Lemma fetchJson_Throw :
  treeListingFails fetch → ∃ e, fetchJson fetch TREE_URL = Throw e.
Proof.
  unfold fetchJson, treeListingFails.
  destruct (fetch TREE_URL) as [|res]; [by eexists|].
  intros [-> | Hj]; simpl; [by eexists|].
  destruct (ok res); simpl; [|by eexists]. rewrite Hj. by eexists.
Qed.

Lemma fetchComponent_Throw_iff cat slg :
  (∃ e, fetchComponent fetch parseFrontmatter (cat, slg) = Throw e) ↔ rawFails fetch (indexUrl cat slg).
Proof.
  rewrite <- fetchRaw_Throw_iff. unfold fetchComponent.
  destruct (fetchRaw fetch (indexUrl cat slg)) as [[raw|]|e].
  - destruct (nonEmpty raw); simpl; [destruct (parseFrontmatter raw)|];
      split; by intros [? ?].
  - split; by intros [? ?].
  - split; intros _; by eexists.
Qed.

Lemma fetchComponent_Throw cat slg e :
  fetchComponent fetch parseFrontmatter (cat, slg) = Throw e →
  fetchRaw fetch (indexUrl cat slg) = Throw e.
Proof.
  unfold fetchComponent.
  destruct (fetchRaw fetch (indexUrl cat slg)) as [[raw|]|e']; [| |congruence].
  - destruct (nonEmpty raw); simpl; [destruct (parseFrontmatter raw)|]; done.
  - done.
Qed.

Lemma fetchComponent_Ok_fields cat slg c :
  fetchComponent fetch parseFrontmatter (cat, slg) = Ok c → category c = cat ∧ slug c = slg.
Proof.
  unfold fetchComponent.
  destruct (fetchRaw fetch (indexUrl cat slg)) as [[raw|]|e]; [| |done].
  - destruct (nonEmpty raw); simpl; [destruct (parseFrontmatter raw)|];
      by intros [= <-].
  - by intros [= <-].
Qed.

Lemma fetchComponent_not_found cat slg :
  rawNotFound fetch (indexUrl cat slg) →
  fetchComponent fetch parseFrontmatter (cat, slg) = Ok (bareComponent cat slg).
Proof.
  intros H. unfold fetchComponent. by rewrite (fetchRaw_not_found _ H).
Qed.

Lemma fetchComponent_total entry :
  ¬ rawFails fetch (indexUrl entry.1 entry.2) → ∃ c, fetchComponent fetch parseFrontmatter entry = Ok c.
Proof.
  destruct entry as [cat slg]; simpl. intros Hnf.
  destruct (fetchComponent fetch parseFrontmatter (cat, slg)) as [c|e] eqn:E; [by eexists|].
  exfalso. apply Hnf, fetchComponent_Throw_iff. by eexists.
Qed.

(** [getRegistry], one case per way through the function. *)
Lemma getRegistry_unfold now_get now_set store :
  getRegistry fetch parseFrontmatter now_get now_set store =
  let st := snd (cacheGet now_get "registry" store) in
  let build :=
    match fetchJson fetch TREE_URL with
    | Throw e => (Throw e, st)
    | Ok tree =>
        match allOutcomes (fetchComponent fetch parseFrontmatter) (treeEntries tree) with
        | Throw e => (Throw e, st)
        | Ok cs =>
            let v := VRegistry {| components := cs; bySlug := buildBySlug cs |} in
            (Ok v, cacheSet now_set "registry" v TTL.REGISTRY st)
        end
    end in
  match fst (cacheGet now_get "registry" store) with
  | Some v => if truthy v then (Ok v, st) else build
  | None => build
  end.
Proof.
  unfold getRegistry, bind, await.
  destruct (cacheGet now_get "registry" store) as [cached st]; simpl.
  destruct (fetchJson fetch TREE_URL) as [tree|e]; [|done].
  destruct (allOutcomes (fetchComponent fetch parseFrontmatter) (treeEntries tree)); done.
Qed.

Lemma getRegistry_miss now_get now_set store :
  cacheMissed now_get "registry" store →
  getRegistry fetch parseFrontmatter now_get now_set store =
  let st := snd (cacheGet now_get "registry" store) in
  match fetchJson fetch TREE_URL with
  | Throw e => (Throw e, st)
  | Ok tree =>
      match allOutcomes (fetchComponent fetch parseFrontmatter) (treeEntries tree) with
      | Throw e => (Throw e, st)
      | Ok cs =>
          let v := VRegistry {| components := cs; bySlug := buildBySlug cs |} in
          (Ok v, cacheSet now_set "registry" v TTL.REGISTRY st)
      end
  end.
Proof.
  intros Hmiss. rewrite getRegistry_unfold. unfold cacheMissed in Hmiss.
  destruct (fst (cacheGet now_get "registry" store)) as [v|]; [|done].
  by rewrite Hmiss.
Qed.

(** A rejected [getRegistry] has written nothing: every entry of the store
    afterwards was there before, unchanged. *)
Lemma getRegistry_Throw_store now_get now_set store e store' :
  getRegistry fetch parseFrontmatter now_get now_set store = (Throw e, store') →
  store' = snd (cacheGet now_get "registry" store).
Proof.
  rewrite getRegistry_unfold. simpl.
  destruct (fetchJson fetch TREE_URL) as [tree|e1];
    [destruct (allOutcomes (fetchComponent fetch parseFrontmatter) (treeEntries tree)) as [cs|e2]|];
    destruct (fst (cacheGet now_get "registry" store)) as [v|];
    try destruct (truthy v); congruence.
Qed.

(** ** The slug map *)

Lemma fold_bySlug_lookup cs (m : gmap string ComponentInfo) s :
  fold_left (λ m c, <[slug c := c]> m) cs m !! s
  = match lastWithSlug s cs with Some c => Some c | None => m !! s end.
Proof.
  unfold lastWithSlug. revert m. induction cs as [|c cs IH]; intros m; [done|].
  simpl. rewrite IH, filter_cons. destruct (decide (slug c = s)) as [E|E].
  - rewrite last_cons. destruct (last _); [done|].
    rewrite E. apply lookup_insert_eq.
  - destruct (last _); [done|]. by apply lookup_insert_ne.
Qed.

Lemma buildBySlug_lookup cs s : buildBySlug cs !! s = lastWithSlug s cs.
Proof.
  unfold buildBySlug. rewrite fold_bySlug_lookup, lookup_empty.
  by destruct (lastWithSlug s cs).
Qed.

Lemma lastWithSlug_Some s cs c :
  lastWithSlug s cs = Some c → c ∈ cs ∧ slug c = s.
Proof.
  unfold lastWithSlug. intros Hlast.
  apply last_Some_elem_of in Hlast.
  apply list_elem_of_filter in Hlast. destruct Hlast as [Hs Hin]. by split.
Qed.

Lemma lastWithSlug_last_occurrence s front c back :
  slug c = s → Forall (λ c', slug c' ≠ s) back →
  lastWithSlug s (front ++ c :: back) = Some c.
Proof.
  intros Hc Hback. unfold lastWithSlug.
  rewrite filter_app, filter_cons_True by done.
  assert (filter (λ c0, slug c0 = s) back = []) as ->.
  { induction Hback as [|c' back Hc' _ IH]; [done|].
    by rewrite filter_cons_False. }
  apply last_snoc.
Qed.

(** The components are built entry by entry, in the order of the tree. *)
Lemma built_components_fields entries cs :
  Forall2 (λ entry c, fetchComponent fetch parseFrontmatter entry = Ok c) entries cs →
  Forall2 (λ entry c, category c = entry.1 ∧ slug c = entry.2) entries cs.
Proof.
  intros H. eapply Forall2_impl; [exact H|].
  intros [cat slg] c. apply fetchComponent_Ok_fields.
Qed.

(** No entry, or a falsy one, is a miss at every time. *)
Lemma cacheMissed_of_lookup key (st : Store Value) :
  match st !! key with
  | Some entry => truthy (value entry) = false
  | None => True
  end →
  ∀ now, cacheMissed now key st.
Proof.
  intros H now. unfold cacheMissed, cacheGet.
  destruct (st !! key) as [entry|]; [|done].
  by destruct (now >? expiresAt entry).
Qed.

Lemma getRegistry_Throw_missed now_get now_set store e store' :
  getRegistry fetch parseFrontmatter now_get now_set store = (Throw e, store') →
  ∀ now, cacheMissed now "registry" store'.
Proof.
  intros H. pose proof (getRegistry_Throw_store _ _ _ _ _ H) as ->.
  apply cacheMissed_of_lookup.
  rewrite getRegistry_unfold in H. simpl in H. revert H.
  unfold cacheGet. destruct (store !! "registry") as [entry|] eqn:Hs.
  - destruct (now_get >? expiresAt entry); simpl.
    + intros _. by rewrite lookup_delete_eq.
    + rewrite Hs. by destruct (truthy (value entry)).
  - simpl. by rewrite Hs.
Qed.

(** C1. The registry build is all or nothing. Whenever [getRegistry]
    rejects, the store afterwards holds only entries it held before,
    unchanged, and nothing under ["registry"] that a later call would
    accept. With no usable cached registry: a failing tree listing rejects
    the call with the error of that fetch; a metadata fetch that fails
    with something other than a 404 rejects the call with the error of
    such a fetch; and when no metadata fetch fails that way the build
    succeeds, caches the registry it returns, and every component whose
    metadata fetch was answered with 404 is listed, at its place in tree
    order, as the record whose [name] is the slug and whose [description]
    is the empty string. *)
Theorem getRegistry_atomic now_get now_set store :
  (∀ e store',
     getRegistry fetch parseFrontmatter now_get now_set store = (Throw e, store') →
     store' ⊆ store ∧ ∀ now, cacheMissed now "registry" store') ∧
  (cacheMissed now_get "registry" store →
   let st := snd (cacheGet now_get "registry" store) in
   (treeListingFails fetch →
      ∃ e, fetchJson fetch TREE_URL = Throw e ∧
           getRegistry fetch parseFrontmatter now_get now_set store = (Throw e, st)) ∧
   (∀ tree,
      fetchJson fetch TREE_URL = Ok tree →
      Exists (λ entry, rawFails fetch (indexUrl entry.1 entry.2)) (treeEntries tree) →
      ∃ entry e,
        entry ∈ treeEntries tree ∧
        fetchRaw fetch (indexUrl entry.1 entry.2) = Throw e ∧
        getRegistry fetch parseFrontmatter now_get now_set store = (Throw e, st)) ∧
   (∀ tree,
      fetchJson fetch TREE_URL = Ok tree →
      metadataSettles fetch (treeEntries tree) →
      ∃ r,
        getRegistry fetch parseFrontmatter now_get now_set store
        = (Ok (VRegistry r),
           cacheSet now_set "registry" (VRegistry r) TTL.REGISTRY st) ∧
        ∀ i cat slg,
          treeEntries tree !! i = Some (cat, slg) →
          rawNotFound fetch (indexUrl cat slg) →
          components r !! i
          = Some {| slug := slg; name := slg; description := ""; category := cat |})).
Proof.
  split.
  - intros e store' H. split.
    + apply getRegistry_Throw_store in H as ->. apply cacheGet_store_subseteq.
    + by eapply getRegistry_Throw_missed.
  - intros Hmiss st. split; [|split].
    + intros [e He]%fetchJson_Throw. exists e. split; [done|].
      rewrite getRegistry_miss by done. simpl. by rewrite He.
    + intros tree Htree Hex.
      destruct (allOutcomes_Throw (fetchComponent fetch parseFrontmatter)
                  (treeEntries tree)) as ([cat slg] & e & Hin & He & Hall).
      { eapply Exists_impl; [exact Hex|]. intros [cat slg] Hf.
        by apply fetchComponent_Throw_iff. }
      exists (cat, slg), e. split; [done|]. split.
      * by apply fetchComponent_Throw in He.
      * rewrite getRegistry_miss by done. simpl. by rewrite Htree, Hall.
    + intros tree Htree Hall.
      destruct (allOutcomes_total (fetchComponent fetch parseFrontmatter)
                  (treeEntries tree)) as [cs Hcs].
      { eapply Forall_impl; [exact Hall|]. intros entry.
        apply fetchComponent_total. }
      exists {| components := cs; bySlug := buildBySlug cs |}. split.
      * rewrite getRegistry_miss by done. simpl. by rewrite Htree, Hcs.
      * intros i cat slg Hi H404. simpl.
        apply allOutcomes_Ok_Forall2 in Hcs.
        destruct (Forall2_lookup_l _ _ _ _ _ Hcs Hi) as (c & Hc & Hfc).
        rewrite (fetchComponent_not_found _ _ H404) in Hfc.
        unfold bareComponent in Hfc. congruence.
Qed.

(** C9. With no usable cached registry, a tree listing that succeeds and
    metadata fetches none of which fails with something other than a 404,
    [getRegistry] succeeds whatever slugs repeat: [components] has one
    entry per matched path, in tree order, with that path's category and
    slug; [bySlug] binds each slug to the last entry of [components]
    carrying it, so for a slug listed under two categories both entries
    are in [components] and [bySlug] holds the later one; and every value
    of [bySlug] is an element of [components] stored under its own slug. *)
Theorem getRegistry_duplicate_slugs now_get now_set store tree :
  cacheMissed now_get "registry" store →
  fetchJson fetch TREE_URL = Ok tree →
  metadataSettles fetch (treeEntries tree) →
  ∃ r,
    getRegistry fetch parseFrontmatter now_get now_set store
    = (Ok (VRegistry r),
       cacheSet now_set "registry" (VRegistry r) TTL.REGISTRY
         (snd (cacheGet now_get "registry" store))) ∧
    map (λ c, (category c, slug c)) (components r) = treeEntries tree ∧
    (∀ s, bySlug r !! s = lastWithSlug s (components r)) ∧
    (∀ k c, bySlug r !! k = Some c → c ∈ components r ∧ slug c = k) ∧
    (∀ before cat1 between cat2 s after,
       treeEntries tree = before ++ (cat1, s) :: between ++ (cat2, s) :: after →
       s ∉ after.*2 →
       ∃ c1 c2,
         components r !! length before = Some c1 ∧
         components r !! (length before + S (length between))%nat = Some c2 ∧
         category c1 = cat1 ∧ slug c1 = s ∧
         category c2 = cat2 ∧ slug c2 = s ∧
         bySlug r !! s = Some c2).
Proof.
  intros Hmiss Htree Hall.
  destruct (allOutcomes_total (fetchComponent fetch parseFrontmatter)
              (treeEntries tree)) as [cs Hcs].
  { eapply Forall_impl; [exact Hall|]. intros entry. apply fetchComponent_total. }
  exists {| components := cs; bySlug := buildBySlug cs |}. simpl.
  pose proof Hcs as Hfields.
  apply allOutcomes_Ok_Forall2, built_components_fields in Hfields.
  split; [|split; [|split; [|split]]].
  - rewrite getRegistry_miss by done. simpl. by rewrite Htree, Hcs.
  - clear -Hfields. induction Hfields as [|[cat slg] c es cs' [Hc Hs] _ IH]; [done|].
    simpl in *. by rewrite IH, Hc, Hs.
  - intros s. apply buildBySlug_lookup.
  - intros k c. rewrite buildBySlug_lookup. apply lastWithSlug_Some.
  - intros before cat1 between cat2 s after Hsplit Hafter.
    rewrite Hsplit in Hfields.
    apply Forall2_app_inv_l in Hfields as (cs0 & rest1 & H0 & Hrest1 & ->).
    apply Forall2_cons_inv_l in Hrest1 as (c1 & rest2 & [Hc1 Hs1] & Hrest2 & ->).
    apply Forall2_app_inv_l in Hrest2 as (cs1 & rest3 & H1 & Hrest3 & ->).
    apply Forall2_cons_inv_l in Hrest3 as (c2 & cs2 & [Hc2 Hs2] & H2 & ->).
    simpl in *. exists c1, c2.
    rewrite (Forall2_length _ _ _ H0), (Forall2_length _ _ _ H1).
    split; [by apply list_lookup_middle|].
    split.
    { rewrite lookup_app_r by lia.
      replace (length cs0 + S (length cs1) - length cs0)%nat
        with (S (length cs1)) by lia.
      simpl. by apply list_lookup_middle. }
    repeat (split; [done|]).
    rewrite buildBySlug_lookup.
    replace (cs0 ++ c1 :: cs1 ++ c2 :: cs2)
      with ((cs0 ++ c1 :: cs1) ++ c2 :: cs2) by by rewrite <- app_assoc.
    apply lastWithSlug_last_occurrence; [done|].
    clear -H2 Hafter. induction H2 as [|[cat slg] c es cs' [Hc Hs] _ IH]; [done|].
    simpl in *. apply not_elem_of_cons in Hafter as [Hne Hafter].
    constructor; [congruence | by apply IH].
Qed.

End RegistryFacts.

(** [indexPattern] on paths of the tree. *)
Example matchIndex_component :
  matchIndex "apps/docs/src/content/04-components/actions/button/index.mdx"
  = Some ("actions", "button").
Proof. reflexivity. Qed.

Example matchIndex_nested_deeper :
  matchIndex "apps/docs/src/content/04-components/forms/a/b/index.mdx" = None.
Proof. reflexivity. Qed.

Example matchIndex_empty_category :
  matchIndex "apps/docs/src/content/04-components//button/index.mdx" = None.
Proof. reflexivity. Qed.

Example matchIndex_other_file :
  matchIndex "apps/docs/src/content/04-components/actions/button/index.mdx.bak"
  = None.
Proof. reflexivity. Qed.

Lemma sampleTree_entries :
  treeEntries sampleTree
  = [("actions", "button"); ("forms", "text-field"); ("forms", "button")].
Proof. reflexivity. Qed.

Lemma sampleFetch_settles : metadataSettles sampleFetch (treeEntries sampleTree).
Proof.
  rewrite sampleTree_entries.
  repeat apply Forall_cons_2; try apply Forall_nil_2;
    vm_compute; intros [Hne Hok]; first [discriminate Hok | by apply Hne].
Qed.

Lemma getRegistry_atomic_witness :
  cacheMissed 0 "registry" ∅ ∧
  (∃ e, getRegistry offline sampleParse 0 5 ∅ = (Throw e, ∅)) ∧
  (∃ e, getRegistry brokenServer sampleParse 0 5 ∅ = (Throw e, ∅)) ∧
  getRegistry flakyFetch sampleParse 0 5 ∅
  = (Throw (GitHubRawFetchError 500 "Internal Server Error"), ∅) ∧
  ∃ r,
    getRegistry sampleFetch sampleParse 0 5 ∅
    = (Ok (VRegistry r), cacheSet 5 "registry" (VRegistry r) TTL.REGISTRY ∅) ∧
    components r !! 2%nat
    = Some {| slug := "button"; name := "button"; description := "";
              category := "forms" |}.
Proof.
  assert (Hmiss : cacheMissed 0 "registry" ∅) by exact I.
  split; [exact Hmiss|].
  split; [|split; [|split]].
  - destruct (getRegistry_atomic offline sampleParse 0 5 ∅) as [_ Hbuild].
    destruct (Hbuild Hmiss) as (Hdown & _ & _).
    destruct (Hdown I) as (e & _ & He). by exists e.
  - destruct (getRegistry_atomic brokenServer sampleParse 0 5 ∅) as [_ Hbuild].
    destruct (Hbuild Hmiss) as (Hdown & _ & _).
    destruct (Hdown (or_introl eq_refl)) as (e & _ & He). by exists e.
  - destruct (getRegistry_atomic flakyFetch sampleParse 0 5 ∅) as [_ Hbuild].
    destruct (Hbuild Hmiss) as (_ & Hmeta & _).
    assert (Hfails : Exists (λ entry, rawFails flakyFetch (indexUrl entry.1 entry.2))
                       (treeEntries sampleTree)).
    { rewrite sampleTree_entries. apply Exists_cons_tl, Exists_cons_hd.
      vm_compute. by split. }
    destruct (Hmeta sampleTree eq_refl Hfails) as ([cat slg] & e & Hin & Hraw & He).
    rewrite sampleTree_entries in Hin.
    assert (e = GitHubRawFetchError 500 "Internal Server Error") as <-; [|exact He].
    repeat (apply elem_of_cons in Hin as [[= -> ->] | Hin]);
      [vm_compute in Hraw; congruence ..|].
    by apply elem_of_nil in Hin.
  - destruct (getRegistry_atomic sampleFetch sampleParse 0 5 ∅) as [_ Hbuild].
    destruct (Hbuild Hmiss) as (_ & _ & Hok).
    destruct (Hok sampleTree eq_refl sampleFetch_settles) as (r & Hr & H404).
    exists r. split; [exact Hr|].
    apply (H404 2%nat "forms" "button"); [reflexivity | reflexivity].
Defined.

Lemma getRegistry_duplicate_slugs_witness :
  ∃ r c1 c2,
    getRegistry sampleFetch sampleParse 0 5 ∅
    = (Ok (VRegistry r), cacheSet 5 "registry" (VRegistry r) TTL.REGISTRY ∅) ∧
    components r !! 0%nat = Some c1 ∧ category c1 = "actions" ∧
    components r !! 2%nat = Some c2 ∧ category c2 = "forms" ∧
    bySlug r !! "button" = Some c2.
Proof.
  assert (Hmiss : cacheMissed 0 "registry" ∅) by exact I.
  destruct (getRegistry_duplicate_slugs sampleFetch sampleParse 0 5 ∅ sampleTree
              Hmiss eq_refl sampleFetch_settles)
    as (r & Hr & _ & _ & _ & Hdup).
  destruct (Hdup [] "actions" [("forms", "text-field")] "forms" "button" []
              eq_refl ltac:(apply not_elem_of_nil))
    as (c1 & c2 & H1 & H2 & Hc1 & _ & Hc2 & _ & Hby).
  exists r, c1, c2. repeat split; assumption.
Defined.

(* ===================================================================== *)
(** * Properties of the resolver *)
(* ===================================================================== *)

Section ResolverFacts.

Variable fetch : string → FetchResult.
Variable parseFrontmatter : string → string * string.

Lemma resolveCategory_via_registry component cat now_get now_set store :
  cat = None ∨ cat = Some "" →
  resolveCategory fetch parseFrontmatter component cat now_get now_set store
  = match getRegistry fetch parseFrontmatter now_get now_set store with
    | (Ok registry, store') => locate component registry store'
    | (Throw e, store') => (Throw e, store')
    end.
Proof. by intros [-> | ->]. Qed.

(** C7, as the code has it. A category that is supplied and not the empty
    string is trusted: the result is [(category, component)] verbatim,
    whatever the network and the cache hold, and the store is untouched.
    With no category, or with the empty string as category, the registry
    is consulted: the identifier is looked up in its slug map, a binding
    resolves to that entry's [(category, slug)], no binding resolves to
    [null], and a registry that cannot be obtained rejects the call. *)
Theorem resolveCategory_spec component now_get now_set store :
  (∀ c, c ≠ "" →
     resolveCategory fetch parseFrontmatter component (Some c) now_get now_set store
     = (Ok (Some {| loc_category := c; loc_slug := component |}), store)) ∧
  (∀ cat, cat = None ∨ cat = Some "" →
     (∀ r store',
        getRegistry fetch parseFrontmatter now_get now_set store
        = (Ok (VRegistry r), store') →
        resolveCategory fetch parseFrontmatter component cat now_get now_set store
        = (Ok (lookupLocation component r), store')) ∧
     (∀ e store',
        getRegistry fetch parseFrontmatter now_get now_set store = (Throw e, store') →
        resolveCategory fetch parseFrontmatter component cat now_get now_set store
        = (Throw e, store'))).
Proof.
  split.
  - intros c Hc. unfold resolveCategory.
    destruct c as [|a c]; [done|]. done.
  - intros cat Hcat. split.
    + intros r store' Hr. rewrite resolveCategory_via_registry, Hr by done.
      unfold locate, lookupLocation. by destruct (bySlug r !! component).
    + intros e store' He. by rewrite resolveCategory_via_registry, He.
Qed.

End ResolverFacts.

Lemma resolveCategory_spec_witness :
  resolveCategory offline sampleParse "button" (Some "actions") 0 5 ∅
  = (Ok (Some {| loc_category := "actions"; loc_slug := "button" |}), ∅).
Proof.
  destruct (resolveCategory_spec offline sampleParse "button" 0 5 ∅) as [Hgiven _].
  apply Hgiven. discriminate.
Defined.

(** The specification's two examples, against the registry served by
    [sampleFetch]. *)
Example resolveCategory_text_field :
  fst (resolveCategory sampleFetch sampleParse "text-field" None 0 5 ∅)
  = Ok (Some {| loc_category := "forms"; loc_slug := "text-field" |}).
Proof. vm_compute. reflexivity. Qed.

Example resolveCategory_nope :
  fst (resolveCategory sampleFetch sampleParse "nope" None 0 5 ∅) = Ok None.
Proof. vm_compute. reflexivity. Qed.

(** C7 as stated fails for the empty string: it is a supplied category,
    yet [if (category)] sends the call to the registry, and with the
    network down the call rejects instead of returning the pair. *)
Lemma resolveCategory_empty_category :
  resolveCategory offline sampleParse "button" (Some "") 0 5 ∅
  = (Throw (FetchRejected "fetch failed"), ∅) ∧
  resolveCategory offline sampleParse "button" (Some "") 0 5 ∅
  ≠ (Ok (Some {| loc_category := ""; loc_slug := "button" |}), ∅).
Proof. split; [reflexivity | discriminate]. Qed.

(* ===================================================================== *)
(** * Properties of the static content fetcher *)
(* ===================================================================== *)

Section FetcherFacts.

Variable fetch : string → FetchResult.

(** [fetchMdx], one case per way through the function. *)
Lemma fetchMdx_unfold cat component tab now_get now_set store :
  fetchMdx fetch cat component tab now_get now_set store =
  let key := mdxKey cat component (tabName tab) in
  let st := snd (cacheGet now_get key store) in
  let load :=
    match fetchRaw fetch (mdxUrl cat component (tabName tab)) with
    | Throw e => (Throw e, st)
    | Ok None => (Ok None, st)
    | Ok (Some txt) =>
        if nonEmpty txt
        then (Ok (Some (VString txt)), cacheSet now_set key (VString txt) TTL.MDX st)
        else (Ok (Some (VString txt)), st)
    end in
  match fst (cacheGet now_get key store) with
  | Some v => if truthy v then (Ok (Some v), st) else load
  | None => load
  end.
Proof.
  unfold fetchMdx, bind, await, ret.
  destruct (cacheGet now_get _ store) as [cached st]; simpl.
  destruct (fetchRaw fetch _) as [[txt|]|e]; try done.
  by destruct (nonEmpty txt).
Qed.

Lemma fetchExample_unfold cat component nm now_get now_set store :
  fetchExample fetch cat component nm now_get now_set store =
  let nm := default "default" nm in
  let key := exampleKey cat component nm in
  let st := snd (cacheGet now_get key store) in
  let load :=
    match fetchRaw fetch (exampleUrl cat component nm) with
    | Throw e => (Throw e, st)
    | Ok None => (Ok None, st)
    | Ok (Some txt) =>
        if nonEmpty txt
        then (Ok (Some (VString txt)), cacheSet now_set key (VString txt) TTL.EXAMPLE st)
        else (Ok (Some (VString txt)), st)
    end in
  match fst (cacheGet now_get key store) with
  | Some v => if truthy v then (Ok (Some v), st) else load
  | None => load
  end.
Proof.
  unfold fetchExample, bind, await, ret.
  destruct (cacheGet now_get _ store) as [cached st]; simpl.
  destruct (fetchRaw fetch _) as [[txt|]|e]; try done.
  by destruct (nonEmpty txt).
Qed.

Lemma nonEmpty_true s : s ≠ "" → nonEmpty s = true.
Proof. by destruct s. Qed.

(** C5, as the code has it. When the cache has nothing usable under the
    key: a 404 resolves to [null] and an error status or a failed
    connection rejects the call, in both cases with no entry written; a
    successful fetch resolves to the fetched text, which is cached under
    the MDX TTL when it is not empty and is not cached when it is empty. *)
Theorem fetchMdx_spec cat component tab now_get now_set store :
  let key := mdxKey cat component (tabName tab) in
  let url := mdxUrl cat component (tabName tab) in
  let st := snd (cacheGet now_get key store) in
  cacheMissed now_get key store →
  st ⊆ store ∧
  (rawNotFound fetch url →
     fetchMdx fetch cat component tab now_get now_set store = (Ok None, st)) ∧
  (rawFails fetch url →
     ∃ e, fetchRaw fetch url = Throw e ∧
          fetchMdx fetch cat component tab now_get now_set store = (Throw e, st)) ∧
  (∀ body, rawSucceeds fetch url body → body ≠ "" →
     fetchMdx fetch cat component tab now_get now_set store
     = (Ok (Some (VString body)),
        <[key := {| value := VString body; expiresAt := now_set + TTL.MDX |}]> st)) ∧
  (rawSucceeds fetch url "" →
     fetchMdx fetch cat component tab now_get now_set store
     = (Ok (Some (VString "")), st)).
Proof.
  intros key url st Hmiss.
  assert (Hload : fetchMdx fetch cat component tab now_get now_set store =
    match fetchRaw fetch url with
    | Throw e => (Throw e, st)
    | Ok None => (Ok None, st)
    | Ok (Some txt) =>
        if nonEmpty txt
        then (Ok (Some (VString txt)), cacheSet now_set key (VString txt) TTL.MDX st)
        else (Ok (Some (VString txt)), st)
    end).
  { rewrite fetchMdx_unfold. simpl. fold key url st.
    unfold cacheMissed in Hmiss. fold key in Hmiss.
    destruct (fst (cacheGet now_get key store)) as [v|]; [|done].
    by rewrite Hmiss. }
  split; [apply cacheGet_store_subseteq|].
  split; [|split; [|split]].
  - intros H404. by rewrite Hload, (fetchRaw_not_found _ _ H404).
  - intros [e He]%fetchRaw_Throw_iff. exists e. split; [done|].
    by rewrite Hload, He.
  - intros body Hbody Hne.
    by rewrite Hload, (fetchRaw_succeeds _ _ _ Hbody), nonEmpty_true.
  - intros Hbody. by rewrite Hload, (fetchRaw_succeeds _ _ _ Hbody).
Qed.

(** A usable cached value is returned without a fetch. *)
Lemma fetchMdx_hit cat component tab now_get now_set store v :
  fst (cacheGet now_get (mdxKey cat component (tabName tab)) store) = Some v →
  truthy v = true →
  fetchMdx fetch cat component tab now_get now_set store = (Ok (Some v), store).
Proof.
  intros Hget Hv. rewrite fetchMdx_unfold. simpl. rewrite Hget, Hv.
  by rewrite (cacheGet_Some_store _ _ _ _ Hget).
Qed.

Lemma fetchExample_hit cat component nm now_get now_set store v :
  fst (cacheGet now_get (exampleKey cat component (default "default" nm)) store)
  = Some v →
  truthy v = true →
  fetchExample fetch cat component nm now_get now_set store = (Ok (Some v), store).
Proof.
  intros Hget Hv. rewrite fetchExample_unfold. simpl. rewrite Hget, Hv.
  by rewrite (cacheGet_Some_store _ _ _ _ Hget).
Qed.

(** What a call that found nothing usable in the cache and resolved to a
    truthy value has left in the store. *)
Lemma fetchMdx_miss_cached cat component tab now_get now_set store v store' :
  cacheMissed now_get (mdxKey cat component (tabName tab)) store →
  fetchMdx fetch cat component tab now_get now_set store = (Ok (Some v), store') →
  truthy v = true →
  store' !! mdxKey cat component (tabName tab)
  = Some {| value := v; expiresAt := now_set + TTL.MDX |}.
Proof.
  intros Hmiss. rewrite fetchMdx_unfold. simpl. unfold cacheMissed in Hmiss.
  destruct (fst (cacheGet now_get _ store)) as [v0|].
  - rewrite Hmiss. destruct (fetchRaw fetch _) as [[txt|]|e]; try done.
    destruct (nonEmpty txt) eqn:Htxt.
    + intros [= <- <-] _. apply cacheSet_lookup.
    + intros [= <- <-]. simpl. by rewrite Htxt.
  - destruct (fetchRaw fetch _) as [[txt|]|e]; try done.
    destruct (nonEmpty txt) eqn:Htxt.
    + intros [= <- <-] _. apply cacheSet_lookup.
    + intros [= <- <-]. simpl. by rewrite Htxt.
Qed.

Lemma fetchExample_miss_cached cat component nm now_get now_set store v store' :
  cacheMissed now_get (exampleKey cat component (default "default" nm)) store →
  fetchExample fetch cat component nm now_get now_set store = (Ok (Some v), store') →
  truthy v = true →
  store' !! exampleKey cat component (default "default" nm)
  = Some {| value := v; expiresAt := now_set + TTL.EXAMPLE |}.
Proof.
  intros Hmiss. rewrite fetchExample_unfold. simpl. unfold cacheMissed in Hmiss.
  destruct (fst (cacheGet now_get _ store)) as [v0|].
  - rewrite Hmiss. destruct (fetchRaw fetch _) as [[txt|]|e]; try done.
    destruct (nonEmpty txt) eqn:Htxt.
    + intros [= <- <-] _. apply cacheSet_lookup.
    + intros [= <- <-]. simpl. by rewrite Htxt.
  - destruct (fetchRaw fetch _) as [[txt|]|e]; try done.
    destruct (nonEmpty txt) eqn:Htxt.
    + intros [= <- <-] _. apply cacheSet_lookup.
    + intros [= <- <-]. simpl. by rewrite Htxt.
Qed.

End FetcherFacts.

Lemma fetchMdx_spec_witness :
  cacheMissed 0 (mdxKey "forms" "text-field" "overview") ∅ ∧
  fetchMdx sampleFetch "forms" "text-field" overview 0 5 ∅
  = (Ok (Some (VString "# Text field")),
     <[mdxKey "forms" "text-field" "overview" :=
         {| value := VString "# Text field"; expiresAt := 5 + TTL.MDX |}]> ∅).
Proof.
  assert (Hmiss : cacheMissed 0 (mdxKey "forms" "text-field" "overview") ∅)
    by exact I.
  split; [exact Hmiss|].
  destruct (fetchMdx_spec sampleFetch "forms" "text-field" overview 0 5 ∅ Hmiss)
    as (_ & _ & _ & Hok & _).
  apply (Hok "# Text field"); [vm_compute; by split | discriminate].
Defined.

(** C5 as stated fails on a successful fetch of an empty document: the
    text is returned and nothing is cached. *)
Lemma fetchMdx_empty_document :
  rawSucceeds sampleFetch (mdxUrl "forms" "text-field" "guidelines") "" ∧
  fetchMdx sampleFetch "forms" "text-field" guidelines 0 5 ∅
  = (Ok (Some (VString "")), ∅) ∧
  snd (fetchMdx sampleFetch "forms" "text-field" guidelines 0 5 ∅)
    !! mdxKey "forms" "text-field" "guidelines" = None.
Proof. split; [vm_compute; by split | split; reflexivity]. Qed.

(* ===================================================================== *)
(** * Properties of the suggestions *)
(* ===================================================================== *)

Lemma string_app_cons a (x y : string) : String a x +:+ y = String a (x +:+ y).
Proof. reflexivity. Qed.

Lemma string_app_assoc (x y z : string) : (x +:+ y) +:+ z = x +:+ (y +:+ z).
Proof.
  induction x as [|a x IH]; [done|]. by rewrite !string_app_cons, IH.
Qed.

Lemma string_length_app (x y : string) :
  String.length (x +:+ y) = (String.length x + String.length y)%nat.
Proof.
  induction x as [|a x IH]; [done|]. rewrite string_app_cons. simpl. by rewrite IH.
Qed.

(** [startsWith] and [includes] decide what their names say. *)
Lemma startsWith_spec s p : startsWith s p = true ↔ ∃ post, s = p +:+ post.
Proof.
  revert s. induction p as [|a p IH]; intros s; simpl.
  - split; [intros _; by exists s | done].
  - destruct s as [|b s].
    + split; [done | intros [post Hpost]; discriminate].
    + destruct (Ascii.eqb_spec a b) as [->|Hne].
      * rewrite IH. split.
        -- intros [post ->]. by exists post.
        -- intros [post Hpost]. rewrite string_app_cons in Hpost.
           injection Hpost as ->. by exists post.
      * split; [done|]. intros [post Hpost]. rewrite string_app_cons in Hpost.
        congruence.
Qed.

Lemma includes_spec s needle :
  includes s needle = true ↔ ∃ pre post, s = pre +:+ needle +:+ post.
Proof.
  induction s as [|b s IH].
  - simpl. rewrite orb_false_r, startsWith_spec. split.
    + intros [post Hpost]. by exists "", post.
    + intros (pre & post & H). destruct pre; [by exists post | discriminate].
  - cbn [includes]. rewrite orb_true_iff, startsWith_spec, IH. split.
    + intros [[post Hpost] | (pre & post & Hpre)].
      * by exists "", post.
      * exists (String b pre), post. by rewrite string_app_cons, Hpre.
    + intros (pre & post & H). destruct pre as [|a pre].
      * left. by exists post.
      * right. rewrite string_app_cons in H. injection H as -> ->.
        by exists pre, post.
Qed.

Lemma suggestComponent_length input registry :
  (length (suggestComponent input registry) <= 5)%nat.
Proof. unfold suggestComponent. rewrite length_map, length_take. lia. Qed.

(** X29. Where every slug is lower-case, [suggestComponent] is the function
    the specification describes. *)
Lemma suggestComponent_lower_slugs input registry :
  Forall (λ c, isLowerCase (slug c)) (components registry) →
  suggestComponent input registry = suggestComponent_spec input registry.
Proof.
  intros Hlow. unfold suggestComponent, suggestComponent_spec.
  f_equal. f_equal. apply List.filter_ext_in. intros c Hc.
  apply Forall_forall with (x := c) in Hlow; [|by apply list_elem_of_In].
  unfold containsIgnoringCase. by rewrite Hlow.
Qed.

(** A directory named [Button] is listed under the slug [Button]. *)
Example treeEntries_capitalised :
  treeEntries
    [ {| path := "apps/docs/src/content/04-components/actions/Button/index.mdx";
         type := "blob" |} ]
  = [("actions", "Button")].
Proof. reflexivity. Qed.

(** The specification's example. *)
Example suggestComponent_butt :
  suggestComponent "butt" exampleRegistry = ["button"; "button-group"].
Proof. reflexivity. Qed.

Example suggestComponent_upper_case_input :
  suggestComponent "BUTTON-G" exampleRegistry = ["button-group"].
Proof. reflexivity. Qed.

(** C3 at a registry with a capitalised slug. The slug [Button] contains
    [butt] without regard to case, so the specified result is [[Button]];
    the code compares the slug as it is with the lower-cased input and
    suggests nothing. *)
Theorem suggestComponent_capitalised_slug :
  containsIgnoringCase "Button" "butt" = true ∧
  suggestComponent_spec "butt" capitalisedRegistry = ["Button"] ∧
  suggestComponent "butt" capitalisedRegistry = [].
Proof. repeat split. Qed.

(* ===================================================================== *)
(** * Properties of the dynamic extractor *)
(* ===================================================================== *)

Section ScraperFacts.

Variable pw : Playwright.

(** The accordion loop talks to the page only: the world stays as it is. *)
Lemma scrapeAccordion_world acc sections w r w' :
  scrapeAccordion acc sections w = (r, w') → w' = w.
Proof.
  unfold scrapeAccordion, bind, await, ret, catchIgnore.
  destruct (acc_heading acc); [|congruence].
  destruct (acc_isExpanded acc) as [[]|]; simpl; [| |congruence].
  - destruct (acc_props acc) as [[|p ps]|]; congruence.
  - destruct (acc_button acc) as [[]|]; simpl; [| |congruence].
    + destruct (acc_click acc); [|congruence].
      destruct (acc_props acc) as [[|p ps]|]; congruence.
    + destruct (acc_props acc) as [[|p ps]|]; congruence.
Qed.

Lemma scrapeAccordions_world accs sections w r w' :
  scrapeAccordions accs sections w = (r, w') → w' = w.
Proof.
  revert sections w. induction accs as [|acc accs IH]; intros sections w; simpl.
  - unfold ret. congruence.
  - unfold bind. destruct (scrapeAccordion acc sections w) as [[secs|e] w1] eqn:E.
    + apply scrapeAccordion_world in E as ->. apply IH.
    + apply scrapeAccordion_world in E as ->. congruence.
Qed.

(** An accordion whose expansion wait times out yields its rows (none, if
    the table never appeared) and the loop goes on. *)
Lemma scrapeAccordion_wait_timeout acc sections w e hd :
  acc_heading acc = Ok hd → acc_isExpanded acc = Ok false →
  acc_button acc = Ok true → acc_click acc = Ok () →
  acc_waitForSelector acc = Throw e → acc_props acc = Ok [] →
  scrapeAccordion acc sections w = (Ok sections, w).
Proof.
  intros Hh Hx Hb Hc Hw Hp.
  unfold scrapeAccordion, bind, await, ret, catchIgnore.
  by rewrite Hh, Hx, Hb, Hc, Hp.
Qed.

Lemma guardedBody_contexts cat component now_set w r w' :
  guardedBody pw cat component now_set w = (r, w') →
  openContexts w' = openContexts w ∧ nextContext w' = nextContext w
  ∧ browser w' = browser w.
Proof.
  unfold guardedBody, bind, await.
  destruct (goto pw _); [|by intros [= _ <-]].
  destruct (waitForSelector pw); [|by intros [= _ <-]].
  destruct (extractTable pw) as [mainProps|]; [|by intros [= _ <-]].
  destruct (accordions pw) as [accs|]; [|by intros [= _ <-]].
  destruct (scrapeAccordions accs _ w) as [[secs|e] w1] eqn:E;
    apply scrapeAccordions_world in E as ->; by intros [= _ <-].
Qed.

Lemma guardedBody_Ok cat component now_set w v w' :
  guardedBody pw cat component now_set w = (Ok v, w') →
  truthy v = true ∧
  store w' = cacheSet now_set (developKey cat component) v TTL.DEVELOP (store w).
Proof.
  unfold guardedBody, bind, await.
  destruct (goto pw _); [|done].
  destruct (waitForSelector pw); [|done].
  destruct (extractTable pw) as [mainProps|]; [|done].
  destruct (accordions pw) as [accs|]; [|done].
  destruct (scrapeAccordions accs _ w) as [[secs|e] w1] eqn:E;
    apply scrapeAccordions_world in E as ->; [|done].
  by intros [= <- <-].
Qed.

Lemma scrapeDevelop_unfold cat component now_get now_set w :
  scrapeDevelop pw cat component now_get now_set w =
  let key := developKey cat component in
  let w1 := withStore (λ _, snd (cacheGet now_get key (store w))) w in
  match fst (cacheGet now_get key (store w)) with
  | Some v => if truthy v then (Ok v, w1) else scrapeFresh pw cat component now_set w1
  | None => scrapeFresh pw cat component now_set w1
  end.
Proof.
  unfold scrapeDevelop.
  destruct (cacheGet now_get _ (store w)) as [cached st]. simpl.
  destruct cached as [v|]; [destruct (truthy v)|]; reflexivity.
Qed.

Lemma withStore_id w : withStore (λ _, store w) w = w.
Proof. by destruct w. Qed.

(** A usable cached value is returned without touching the browser. *)
Lemma scrapeDevelop_hit cat component now_get now_set w v :
  fst (cacheGet now_get (developKey cat component) (store w)) = Some v →
  truthy v = true →
  scrapeDevelop pw cat component now_get now_set w = (Ok v, w).
Proof.
  intros Hget Hv. rewrite scrapeDevelop_unfold. simpl. rewrite Hget, Hv.
  by rewrite (cacheGet_Some_store _ _ _ _ Hget), withStore_id.
Qed.

Lemma scrapeFresh_Ok cat component now_set w v w' :
  scrapeFresh pw cat component now_set w = (Ok v, w') →
  truthy v = true ∧
  store w' = cacheSet now_set (developKey cat component) v TTL.DEVELOP (store w).
Proof.
  unfold scrapeFresh, bind, await, getBrowser, openContext, tryFinally, closeContext.
  destruct (negb (browser w) || negb (isConnected pw));
    [destruct (launch pw); [|done]|];
    (destruct (newContext pw); [|done]);
    (destruct (route pw); [|done]);
    (destruct (newPage pw); [|done]);
    match goal with
    | |- context [guardedBody _ _ _ _ ?w0] =>
        destruct (guardedBody pw cat component now_set w0) as [r w2] eqn:E
    end;
    (destruct (close pw); [|done]);
    intros [= -> <-]; apply guardedBody_Ok in E; exact E.
Qed.

(** What a call that found nothing usable in the cache and resolved has
    left in the store. *)
Lemma scrapeDevelop_miss_cached cat component now_get now_set w v w' :
  cacheMissed now_get (developKey cat component) (store w) →
  scrapeDevelop pw cat component now_get now_set w = (Ok v, w') →
  truthy v = true ∧
  store w' !! developKey cat component
  = Some {| value := v; expiresAt := now_set + TTL.DEVELOP |}.
Proof.
  intros Hmiss. rewrite scrapeDevelop_unfold. simpl. unfold cacheMissed in Hmiss.
  assert (Hfresh : ∀ w1, scrapeFresh pw cat component now_set w1 = (Ok v, w') →
    truthy v = true ∧
    store w' !! developKey cat component
    = Some {| value := v; expiresAt := now_set + TTL.DEVELOP |}).
  { intros w1 [Hv Hst]%scrapeFresh_Ok. split; [done|].
    rewrite Hst. apply cacheSet_lookup. }
  destruct (fst (cacheGet now_get _ (store w))) as [v0|]; [rewrite Hmiss|];
    apply Hfresh.
Qed.

(** Inside the [try], release is guaranteed: once the page exists and
    [context.close()] itself succeeds, the context this call opened is
    closed when the call settles, whatever happens in between. *)
Lemma scrapeFresh_releases cat component now_set w r w' :
  nextContext w ∉ openContexts w →
  route pw = Ok () → newPage pw = Ok () → close pw = Ok () →
  scrapeFresh pw cat component now_set w = (r, w') →
  nextContext w ∉ openContexts w'.
Proof.
  intros Hfree Hroute Hpage Hclose.
  unfold scrapeFresh, bind, await, getBrowser, openContext, tryFinally, closeContext.
  rewrite Hroute, Hpage, Hclose.
  destruct (negb (browser w) || negb (isConnected pw));
    [destruct (launch pw); [|by intros [= _ <-]]|];
    (destruct (newContext pw); [|by intros [= _ <-]]);
    match goal with
    | |- context [guardedBody _ _ _ _ ?w0] =>
        destruct (guardedBody pw cat component now_set w0) as [r2 w2] eqn:E
    end;
    apply guardedBody_contexts in E as (Hctx & Hnext & _); simpl in Hctx;
    intros [= _ <-]; simpl; rewrite Hctx;
    apply not_elem_of_difference; right; by apply elem_of_singleton.
Qed.

End ScraperFacts.

(** Outside the [try], nothing releases the context: when [context.route]
    or [context.newPage] rejects, the call rejects with the context it
    opened still open. *)
Lemma scrapeFresh_leaks pw cat component now_set w e :
  browser w = true ∧ isConnected pw = true ∨ launch pw = Ok () →
  newContext pw = Ok () →
  route pw = Throw e ∨ route pw = Ok () ∧ newPage pw = Throw e →
  ∃ w', scrapeFresh pw cat component now_set w = (Throw e, w') ∧
        nextContext w ∈ openContexts w'.
Proof.
  intros Hbrowser Hctx Hfail.
  unfold scrapeFresh, bind, await, getBrowser, openContext. rewrite Hctx.
  assert (Hin : nextContext w ∈ ({[nextContext w]} ∪ openContexts w : gset nat)).
  { apply elem_of_union_l. by apply elem_of_singleton. }
  destruct (negb (browser w) || negb (isConnected pw)) eqn:Hb.
  - destruct Hbrowser as [[Hw Hc] | Hl].
    { rewrite Hw, Hc in Hb. discriminate. }
    rewrite Hl. destruct Hfail as [-> | [-> ->]]; eexists; (split; [reflexivity | exact Hin]).
  - destruct Hfail as [-> | [-> ->]]; eexists; (split; [reflexivity | exact Hin]).
Qed.

(** The success path: the properties table is read, the accordion whose
    wait timed out contributes no section and does not abort the call, the
    result is cached and the context is closed. *)
Example scrapeDevelop_samplePage :
  fst (scrapeDevelop samplePage "actions" "button" 0 5 freshWorld)
  = Ok (VDevelop
          {| sections := [ {| heading := "Properties"; properties := [unionTyped] |} ] |})
  ∧ (0%nat ∉ openContexts (snd (scrapeDevelop samplePage "actions" "button" 0 5 freshWorld))).
Proof.
  split; [reflexivity|].
  eapply (scrapeFresh_releases samplePage "actions" "button" 5 freshWorld);
    [apply not_elem_of_empty | reflexivity | reflexivity | reflexivity |].
  apply surjective_pairing.
Qed.

(** C4 at a browser that loses its connection between [b.newContext()] and
    [context.newPage()]: the call creates context 0 and rejects, and
    context 0 is still open afterwards; [context.close()] was never
    reached. *)
Theorem scrapeDevelop_newPage_rejects :
  fst (scrapeDevelop crashingPage "actions" "button" 0 5 freshWorld)
  = Throw (BrowserError "browserContext.newPage: Target closed") ∧
  0%nat ∈ openContexts (snd (scrapeDevelop crashingPage "actions" "button" 0 5 freshWorld)).
Proof.
  split; [reflexivity|].
  simpl. apply elem_of_union_l. by apply elem_of_singleton.
Qed.

(* ===================================================================== *)
(** * Properties of the table formatting *)
(* ===================================================================== *)

Lemma unescapedPipesFrom_app e (x y : string) :
  unescapedPipesFrom e (x +:+ y)
  = (unescapedPipesFrom e x + unescapedPipesFrom (endsInBackslash e x) y)%nat.
Proof.
  revert e. induction x as [|c x IH]; intros e; [done|].
  rewrite string_app_cons. simpl. rewrite IH. lia.
Qed.

Lemma endsInBackslash_app e (x y : string) :
  endsInBackslash e (x +:+ y) = endsInBackslash (endsInBackslash e x) y.
Proof.
  revert e. induction x as [|c x IH]; intros e; [done|].
  rewrite string_app_cons. simpl. by rewrite IH.
Qed.

(** Every pipe of an escaped cell is preceded by a backslash. *)
Lemma unescapedPipesFrom_escapePipes e s :
  unescapedPipesFrom e (escapePipes s) = 0%nat.
Proof.
  revert e. induction s as [|c s IH]; intros e; [done|].
  simpl. destruct (Ascii.eqb_spec c "|") as [->|Hne]; simpl.
  - by rewrite IH.
  - rewrite IH. by destruct (Ascii.eqb_spec c "|").
Qed.

Lemma unescapedPipesFrom_no_pipe e s :
  includes s "|" = false → unescapedPipesFrom e s = 0%nat.
Proof.
  revert e. induction s as [|c s IH]; intros e; [done|].
  cbn [includes startsWith]. intros [H1 H2]%orb_false_elim. simpl.
  rewrite (IH _ H2). rewrite Ascii.eqb_sym.
  destruct (Ascii.eqb "|" c); [discriminate | done].
Qed.

(** X30. A row whose name holds no pipe has the five delimiting pipes of
    the header, whatever its type, default and description hold. *)
Lemma formatRow_columns prop :
  includes (prop_name prop) "|" = false →
  unescapedPipes (formatRow prop) = unescapedPipes tableHeader.
Proof.
  intros Hname. unfold unescapedPipes, formatRow.
  repeat (rewrite unescapedPipesFrom_app || rewrite endsInBackslash_app).
  rewrite !unescapedPipesFrom_escapePipes, (unescapedPipesFrom_no_pipe _ _ Hname).
  reflexivity.
Qed.

(** The specification's examples. *)
Example formatRow_union_type :
  formatRow unionTyped = "| `size` | string \| number | - |  |".
Proof. reflexivity. Qed.

Example formatDevelopData_no_sections :
  formatDevelopData {| sections := [] |}
  = "No property data found for this component.".
Proof. reflexivity. Qed.

(** C2 at a property named [a|b]: the pipes of the type and of the
    description are escaped, the pipe of the name is written as it is, and
    the row has six delimiting pipes where the header has five. *)
Theorem formatDevelopData_pipe_in_name :
  formatRow pipeInName = "| `a|b` | string \| number | - | either \| or |" ∧
  unescapedPipes (formatRow pipeInName) = 6%nat ∧
  unescapedPipes tableHeader = 5%nat ∧
  formatDevelopData pipeInNameData
  = join newline
      [ "## Properties" +:+ newline;
        tableHeader;
        "|----------|------|---------|-------------|";
        "| `a|b` | string \| number | - | either \| or |";
        "" ].
Proof. repeat split. Qed.

(* ===================================================================== *)
(** * Properties of the cache keys *)
(* ===================================================================== *)

(** Moving a slash from the category to the component keeps the joined
    text. *)
Lemma slash_join_shift (a b c rest : string) :
  (a +:+ "/" +:+ b) +:+ "/" +:+ c +:+ rest = a +:+ "/" +:+ (b +:+ "/" +:+ c) +:+ rest.
Proof. by rewrite !string_app_assoc. Qed.

Lemma slash_pairs_differ (a b c : string) :
  (a +:+ "/" +:+ b, c) ≠ (a, b +:+ "/" +:+ c).
Proof.
  intros [= H _]. apply (f_equal String.length) in H.
  rewrite !string_length_app in H. simpl in H. lia.
Qed.

Lemma developKey_shift a b c :
  developKey (a +:+ "/" +:+ b) c = developKey a (b +:+ "/" +:+ c).
Proof.
  unfold developKey. f_equal.
  pose proof (slash_join_shift a b c "") as H.
  by rewrite !string_app_assoc in *.
Qed.

Lemma mdxKey_shift a b c tab :
  mdxKey (a +:+ "/" +:+ b) c tab = mdxKey a (b +:+ "/" +:+ c) tab.
Proof. unfold mdxKey. f_equal. by rewrite !string_app_assoc. Qed.

Lemma exampleKey_shift a b c nm :
  exampleKey (a +:+ "/" +:+ b) c nm = exampleKey a (b +:+ "/" +:+ c) nm.
Proof. unfold exampleKey. f_equal. by rewrite !string_app_assoc. Qed.

(** With nothing usable in the cache, a document that the network serves
    and that is not empty is returned and stored under the key. *)
Lemma fetchMdx_miss_loads fetch cat component tab now_get now_set store body :
  cacheMissed now_get (mdxKey cat component (tabName tab)) store →
  rawSucceeds fetch (mdxUrl cat component (tabName tab)) body →
  body ≠ "" →
  fetchMdx fetch cat component tab now_get now_set store
  = (Ok (Some (VString body)),
     cacheSet now_set (mdxKey cat component (tabName tab)) (VString body) TTL.MDX
       (snd (cacheGet now_get (mdxKey cat component (tabName tab)) store))).
Proof.
  intros Hmiss Hbody Hne. rewrite fetchMdx_unfold. cbv zeta.
  rewrite (fetchRaw_succeeds _ _ _ Hbody), nonEmpty_true by done.
  unfold cacheMissed in Hmiss.
  destruct (fst (cacheGet now_get _ store)) as [v|]; [|done].
  by rewrite Hmiss.
Qed.

Lemma fetchExample_miss_loads fetch cat component nm now_get now_set store body :
  cacheMissed now_get (exampleKey cat component (default "default" nm)) store →
  rawSucceeds fetch (exampleUrl cat component (default "default" nm)) body →
  body ≠ "" →
  fetchExample fetch cat component nm now_get now_set store
  = (Ok (Some (VString body)),
     cacheSet now_set (exampleKey cat component (default "default" nm))
       (VString body) TTL.EXAMPLE
       (snd (cacheGet now_get (exampleKey cat component (default "default" nm))
               store))).
Proof.
  intros Hmiss Hbody Hne. rewrite fetchExample_unfold. cbv zeta.
  rewrite (fetchRaw_succeeds _ _ _ Hbody), nonEmpty_true by done.
  unfold cacheMissed in Hmiss.
  destruct (fst (cacheGet now_get _ store)) as [v|]; [|done].
  by rewrite Hmiss.
Qed.

Lemma cacheGet_hit_after {V} now key (v : V) expiry (st : Store V) :
  st !! key = Some {| value := v; expiresAt := expiry |} →
  now <= expiry →
  fst (cacheGet now key st) = Some v.
Proof.
  intros Hst Hnow.
  by rewrite (cacheGet_fresh now key _ st Hst Hnow).
Qed.

(** C8. For all texts [a], [b], [c], the pairs [(a/b, c)] and [(a, b/c)]
    differ and have the same cache key in [scrapeDevelop], in [fetchMdx]
    (for every tab) and in [fetchExample] (for every example name). So
    what a call for the first pair has cached is what a call for the
    second pair returns while the entry is fresh, whatever the browser or
    the network would have answered for the second pair: a scrape for the
    first pair that found nothing usable in the cache and resolved; a
    [fetchMdx] or [fetchExample] call for the first pair that found
    nothing usable in the cache, whenever the network serves it a
    document that is not empty, which the call returns and stores under
    the key of the second pair. *)
Theorem cache_keys_collide (a b c : string) :
  let cat1 := a +:+ "/" +:+ b in
  let component2 := b +:+ "/" +:+ c in
  (cat1, c) ≠ (a, component2) ∧
  developKey cat1 c = developKey a component2 ∧
  (∀ tab, mdxKey cat1 c tab = mdxKey a component2 tab) ∧
  (∀ nm, exampleKey cat1 c nm = exampleKey a component2 nm) ∧
  (∀ pw pw' t1 t2 t3 t4 w v w1,
     cacheMissed t1 (developKey cat1 c) (store w) →
     scrapeDevelop pw cat1 c t1 t2 w = (Ok v, w1) →
     t3 <= t2 + TTL.DEVELOP →
     scrapeDevelop pw' a component2 t3 t4 w1 = (Ok v, w1)) ∧
  (∀ fetch fetch' tab t1 t2 t3 t4 st body,
     cacheMissed t1 (mdxKey cat1 c (tabName tab)) st →
     rawSucceeds fetch (mdxUrl cat1 c (tabName tab)) body →
     body ≠ "" →
     t3 <= t2 + TTL.MDX →
     ∃ st1,
       fetchMdx fetch cat1 c tab t1 t2 st = (Ok (Some (VString body)), st1) ∧
       st1 !! mdxKey a component2 (tabName tab)
       = Some {| value := VString body; expiresAt := t2 + TTL.MDX |} ∧
       fetchMdx fetch' a component2 tab t3 t4 st1
       = (Ok (Some (VString body)), st1)) ∧
  (∀ fetch fetch' nm t1 t2 t3 t4 st body,
     cacheMissed t1 (exampleKey cat1 c (default "default" nm)) st →
     rawSucceeds fetch (exampleUrl cat1 c (default "default" nm)) body →
     body ≠ "" →
     t3 <= t2 + TTL.EXAMPLE →
     ∃ st1,
       fetchExample fetch cat1 c nm t1 t2 st = (Ok (Some (VString body)), st1) ∧
       st1 !! exampleKey a component2 (default "default" nm)
       = Some {| value := VString body; expiresAt := t2 + TTL.EXAMPLE |} ∧
       fetchExample fetch' a component2 nm t3 t4 st1
       = (Ok (Some (VString body)), st1)).
Proof.
  intros cat1 component2.
  split; [apply slash_pairs_differ|].
  split; [apply developKey_shift|].
  split; [intros tab; apply mdxKey_shift|].
  split; [intros nm; apply exampleKey_shift|].
  split; [|split].
  - intros pw pw' t1 t2 t3 t4 w v w1 Hmiss Hcall Ht.
    destruct (scrapeDevelop_miss_cached _ _ _ _ _ _ _ _ Hmiss Hcall) as [Hv Hst].
    apply scrapeDevelop_hit; [|done].
    unfold component2. rewrite <- developKey_shift.
    by apply (cacheGet_hit_after _ _ _ _ _ Hst).
  - intros fetch fetch' tab t1 t2 t3 t4 st body Hmiss Hbody Hne Ht.
    eexists. split; [by apply fetchMdx_miss_loads|].
    assert (Hst : cacheSet t2 (mdxKey cat1 c (tabName tab)) (VString body) TTL.MDX
                    (snd (cacheGet t1 (mdxKey cat1 c (tabName tab)) st))
                  !! mdxKey a component2 (tabName tab)
                  = Some {| value := VString body; expiresAt := t2 + TTL.MDX |}).
    { unfold component2. rewrite <- mdxKey_shift. apply cacheSet_lookup. }
    split; [exact Hst|].
    apply fetchMdx_hit; [|by apply nonEmpty_true].
    by apply (cacheGet_hit_after _ _ _ _ _ Hst).
  - intros fetch fetch' nm t1 t2 t3 t4 st body Hmiss Hbody Hne Ht.
    eexists. split; [by apply fetchExample_miss_loads|].
    assert (Hst : cacheSet t2 (exampleKey cat1 c (default "default" nm))
                    (VString body) TTL.EXAMPLE
                    (snd (cacheGet t1 (exampleKey cat1 c (default "default" nm)) st))
                  !! exampleKey a component2 (default "default" nm)
                  = Some {| value := VString body; expiresAt := t2 + TTL.EXAMPLE |}).
    { unfold component2. rewrite <- exampleKey_shift. apply cacheSet_lookup. }
    split; [exact Hst|].
    apply fetchExample_hit; [|by apply nonEmpty_true].
    by apply (cacheGet_hit_after _ _ _ _ _ Hst).
Qed.

Lemma cache_keys_collide_witness :
  ("forms/text-field", "overview") ≠ ("forms", "text-field/overview") ∧
  developKey "forms/text-field" "overview" = developKey "forms" "text-field/overview" ∧
  fst (scrapeDevelop noBrowser "forms" "text-field/overview" 7 8
         (snd (scrapeDevelop samplePage "forms/text-field" "overview" 0 5 freshWorld)))
  = Ok (VDevelop
          {| sections := [ {| heading := "Properties"; properties := [unionTyped] |} ] |}) ∧
  fst (fetchMdx sameDocument "forms/text-field" "overview" guidelines 0 5 ∅)
  = Ok (Some (VString "# Document")) ∧
  fst (fetchMdx offline "forms" "text-field/overview" guidelines 7 8
         (snd (fetchMdx sameDocument "forms/text-field" "overview" guidelines 0 5 ∅)))
  = Ok (Some (VString "# Document")) ∧
  fst (fetchExample sameDocument "forms/text-field" "overview" None 0 5 ∅)
  = Ok (Some (VString "# Document")) ∧
  fst (fetchExample offline "forms" "text-field/overview" None 7 8
         (snd (fetchExample sameDocument "forms/text-field" "overview" None 0 5 ∅)))
  = Ok (Some (VString "# Document")).
Proof.
  destruct (cache_keys_collide "forms" "text-field" "overview")
    as (Hne & Hkey & _ & _ & Hdevelop & Hmdx & Hexample).
  split; [exact Hne|]. split; [exact Hkey|].
  assert (Hdoc : "# Document" ≠ "") by discriminate.
  assert (Hmiss_mdx : cacheMissed 0 (mdxKey "forms/text-field" "overview" "guidelines")
                        (∅ : Store Value)) by exact I.
  assert (Hmiss_ex : cacheMissed 0 (exampleKey "forms/text-field" "overview" "default")
                       (∅ : Store Value)) by exact I.
  assert (Hserved_mdx :
    rawSucceeds sameDocument (mdxUrl "forms/text-field" "overview" "guidelines")
      "# Document") by (vm_compute; by split).
  assert (Hserved_ex :
    rawSucceeds sameDocument (exampleUrl "forms/text-field" "overview" "default")
      "# Document") by (vm_compute; by split).
  assert (Hmdx_fresh : 7 <= 5 + TTL.MDX) by (vm_compute; discriminate).
  assert (Hex_fresh : 7 <= 5 + TTL.EXAMPLE) by (vm_compute; discriminate).
  destruct (Hmdx sameDocument offline guidelines 0 5 7 8 ∅ "# Document"
              Hmiss_mdx Hserved_mdx Hdoc Hmdx_fresh) as (st1 & Hm1 & _ & Hm2).
  destruct (Hexample sameDocument offline None 0 5 7 8 ∅ "# Document"
              Hmiss_ex Hserved_ex Hdoc Hex_fresh) as (st2 & He1 & _ & He2).
  assert (Hm1' : fetchMdx sameDocument "forms/text-field" "overview" guidelines 0 5 ∅
                 = (Ok (Some (VString "# Document")), st1)) by exact Hm1.
  assert (Hm2' : fetchMdx offline "forms" "text-field/overview" guidelines 7 8 st1
                 = (Ok (Some (VString "# Document")), st1)) by exact Hm2.
  assert (He1' : fetchExample sameDocument "forms/text-field" "overview" None 0 5 ∅
                 = (Ok (Some (VString "# Document")), st2)) by exact He1.
  assert (He2' : fetchExample offline "forms" "text-field/overview" None 7 8 st2
                 = (Ok (Some (VString "# Document")), st2)) by exact He2.
  rewrite Hm1', He1'. cbn [fst snd]. rewrite Hm2', He2'. cbn [fst].
  split; [|done].
  assert (Hmiss : cacheMissed 0 (developKey "forms/text-field" "overview")
                    (store freshWorld)) by exact I.
  assert (Hcall :
    scrapeDevelop noBrowser "forms" "text-field/overview" 7 8
      (snd (scrapeDevelop samplePage "forms/text-field" "overview" 0 5 freshWorld))
    = (Ok (VDevelop
             {| sections :=
                  [ {| heading := "Properties"; properties := [unionTyped] |} ] |}),
       snd (scrapeDevelop samplePage "forms/text-field" "overview" 0 5 freshWorld))).
  { apply (Hdevelop samplePage noBrowser 0 5 7 8 freshWorld _ _ Hmiss);
      [reflexivity | vm_compute; discriminate]. }
  by rewrite Hcall.
Defined.

(* ===================================================================== *)
(** * Further properties of the cache *)
(* ===================================================================== *)

(** The answer of a lookup depends on the entry under the key alone. *)
Lemma cacheGet_fst {V} (st : Store V) now key :
  fst (cacheGet now key st)
  = match st !! key with
    | Some e => if now >? expiresAt e then None else Some (value e)
    | None => None
    end.
Proof.
  unfold cacheGet. destruct (st !! key) as [e|]; [|done].
  by destruct (now >? expiresAt e).
Qed.

(** X1. Lazy eviction cannot be observed while the clock does not run
    backwards: after a lookup at [now], every lookup at a time [now'] that
    is not earlier, of whatever key, answers as it would have answered
    without the first lookup. *)
Theorem cacheGet_eviction_unobservable {V} (st : Store V) now now' key key' :
  now <= now' →
  fst (cacheGet now' key' (snd (cacheGet now key st)))
  = fst (cacheGet now' key' st).
Proof.
  intros Hle. destruct (decide (key' = key)) as [->|Hne].
  - destruct (st !! key) as [e|] eqn:Hst.
    + destruct (Z.lt_ge_cases (expiresAt e) now) as [Hold|Hfresh].
      * rewrite (cacheGet_stale now key e st Hst Hold). simpl.
        rewrite (cacheGet_miss now' key (delete key st)) by apply lookup_delete_eq.
        rewrite (cacheGet_stale now' key e st Hst) by lia. done.
      * by rewrite (cacheGet_fresh now key e st Hst) by lia.
    + by rewrite (cacheGet_miss now key st Hst).
  - by rewrite !cacheGet_fst, cacheGet_other.
Qed.

Lemma cacheGet_eviction_unobservable_witness :
  fst (cacheGet 2000 "button" (snd (cacheGet 1600 "button" (cacheSet 1000 "button" 7%nat 500 ∅))))
  = fst (cacheGet 2000 "button" (cacheSet 1000 "button" 7%nat 500 ∅)).
Proof.
  apply (cacheGet_eviction_unobservable (cacheSet 1000 "button" 7%nat 500 ∅)
           1600 2000 "button" "button").
  lia.
Defined.

(** X2. Overwrite semantics: after two [cacheSet]s of one key, a lookup
    sees only the second, its value and its expiry; the first value and
    the first TTL, longer or shorter, play no part. *)
Theorem cacheSet_twice {V} (st : Store V) t1 t2 key (v1 v2 : V) ttl1 ttl2 now :
  cacheGet now key (cacheSet t2 key v2 ttl2 (cacheSet t1 key v1 ttl1 st))
  = if now >? t2 + ttl2
    then (None, delete key st)
    else (Some v2, cacheSet t2 key v2 ttl2 st).
Proof.
  rewrite cacheSet_overwrite. unfold cacheGet. rewrite cacheSet_lookup. simpl.
  destruct (now >? t2 + ttl2); [|done].
  unfold cacheSet. by rewrite delete_insert_eq.
Qed.

(** X3. Keys do not interfere: a [cacheSet] of another key changes neither
    what a lookup of [key] answers nor what it evicts. *)
Theorem cacheGet_cacheSet_other {V} (st : Store V) now t key key' (v : V) ttl :
  key ≠ key' →
  cacheGet now key (cacheSet t key' v ttl st)
  = (fst (cacheGet now key st), cacheSet t key' v ttl (snd (cacheGet now key st))).
Proof.
  intros Hne. unfold cacheGet, cacheSet. rewrite lookup_insert_ne by done.
  destruct (st !! key) as [e|]; [|done].
  destruct (now >? expiresAt e); simpl; [|done].
  by rewrite delete_insert_ne.
Qed.

Lemma cacheGet_cacheSet_other_witness :
  cacheGet 1600 "button" (cacheSet 1200 "link" 8%nat 500 (cacheSet 1000 "button" 7%nat 500 ∅))
  = (None, cacheSet 1200 "link" 8%nat 500 ∅).
Proof.
  rewrite (cacheGet_cacheSet_other (cacheSet 1000 "button" 7%nat 500 ∅)
             1600 1200 "button" "link" 8%nat 500) by discriminate.
  reflexivity.
Defined.

(* ===================================================================== *)
(** * Further properties of the registry builder *)
(* ===================================================================== *)

Lemma stripPrefix_app pre rest : stripPrefix pre (pre +:+ rest) = Some rest.
Proof.
  induction pre as [|a pre IH]; [done|].
  rewrite string_app_cons. simpl. by rewrite Ascii.eqb_refl.
Qed.

Lemma stripPrefix_Some pre s rest : stripPrefix pre s = Some rest → s = pre +:+ rest.
Proof.
  revert s. induction pre as [|a pre IH]; intros s; simpl.
  - by intros [= ->].
  - destruct s as [|b s]; [done|].
    destruct (Ascii.eqb_spec a b) as [->|]; [|done].
    intros H%IH. by rewrite string_app_cons, H.
Qed.

Lemma startsWith_nil s : startsWith s "" = true.
Proof. by destruct s. Qed.

Lemma includes_char_cons c d x :
  includes (String c x) (String d "") = Ascii.eqb d c || includes x (String d "").
Proof.
  cbn [includes startsWith]. by destruct (Ascii.eqb d c).
Qed.

Lemma split_not_nil sep s : split sep s ≠ [].
Proof.
  destruct s as [|c s]; [done|]. simpl.
  destruct (Ascii.eqb c sep); [done|]. by destruct (split sep s).
Qed.

Lemma join_cons_cons sep x y rest :
  join sep (x :: y :: rest) = x +:+ sep +:+ join sep (y :: rest).
Proof. reflexivity. Qed.

(** Splitting loses nothing: joining the parts gives the text back. *)
Lemma join_split sep s : join (String sep "") (split sep s) = s.
Proof.
  induction s as [|c s IH]; [done|]. simpl.
  pose proof (split_not_nil sep s) as Hne.
  destruct (split sep s) as [|h t] eqn:E; [done|].
  destruct (Ascii.eqb_spec c sep) as [->|Hc].
  - rewrite join_cons_cons, IH. done.
  - destruct t as [|h' t].
    + simpl in *. by rewrite IH.
    + rewrite join_cons_cons in *. rewrite string_app_cons, IH. done.
Qed.

(** No part of a split holds the separator. *)
Lemma split_parts_free sep s :
  Forall (λ x, includes x (String sep "") = false) (split sep s).
Proof.
  induction s as [|c s IH]; simpl.
  - by repeat constructor.
  - destruct (Ascii.eqb_spec c sep) as [->|Hc].
    + by constructor.
    + pose proof (split_not_nil sep s) as Hne.
      destruct (split sep s) as [|h t]; [done|].
      inversion IH as [|? ? Hh Ht]; subst. constructor; [|done].
      rewrite includes_char_cons, Hh.
      destruct (Ascii.eqb_spec sep c); [congruence | done].
Qed.

Lemma split_free sep x :
  includes x (String sep "") = false → split sep x = [x].
Proof.
  induction x as [|c x IH]; [done|].
  rewrite includes_char_cons. intros [Hc Hx]%orb_false_elim. simpl.
  rewrite Ascii.eqb_sym, Hc, (IH Hx). done.
Qed.

Lemma split_app_sep sep x rest :
  includes x (String sep "") = false →
  split sep (x +:+ String sep "" +:+ rest) = x :: split sep rest.
Proof.
  induction x as [|c x IH].
  - intros _. change ("" +:+ String sep "" +:+ rest) with (String sep rest).
    simpl. by rewrite Ascii.eqb_refl.
  - rewrite includes_char_cons. intros [Hc Hx]%orb_false_elim.
    rewrite string_app_cons. simpl. rewrite Ascii.eqb_sym, Hc, (IH Hx). done.
Qed.

Lemma matchIndex_iff p cat slg :
  matchIndex p = Some (cat, slg) ↔
  p = indexPath cat slg ∧ cat ≠ "" ∧ slg ≠ "" ∧
  includes cat "/" = false ∧ includes slg "/" = false.
Proof.
  unfold matchIndex, indexPath. split.
  - destruct (stripPrefix (CONTENT_BASE +:+ "/") p) as [rest|] eqn:Hpre; [|done].
    apply stripPrefix_Some in Hpre.
    pose proof (join_split "/" rest) as Hjoin.
    pose proof (split_parts_free "/" rest) as Hfree.
    destruct (split "/" rest) as [|a [|b [|file [|? ?]]]]; try done.
    destruct (nonEmpty a) eqn:Ha; [|done].
    destruct (nonEmpty b) eqn:Hb; [|done].
    simpl. case_bool_decide as Hfile; [|done]. intros [= <- <-].
    apply Forall_cons in Hfree as [Hfa Hrest].
    apply Forall_cons in Hrest as [Hfb _].
    split; [|by destruct a, b].
    rewrite Hpre, <- Hjoin, Hfile, !join_cons_cons. simpl.
    by rewrite !string_app_assoc.
  - intros (-> & Hcat & Hslg & Hfc & Hfs).
    replace (CONTENT_BASE +:+ "/" +:+ cat +:+ "/" +:+ slg +:+ "/index.mdx")
      with ((CONTENT_BASE +:+ "/") +:+ cat +:+ "/" +:+ slg +:+ "/" +:+ "index.mdx")
      by by rewrite !string_app_assoc.
    rewrite stripPrefix_app.
    rewrite (split_app_sep "/" cat) by done.
    rewrite (split_app_sep "/" slg) by done.
    rewrite (split_free "/" "index.mdx") by done.
    destruct cat; [done|]. by destruct slg.
Qed.

(** X4. [indexPattern] accepts exactly the index documents two levels
    below the content root: a path matches with groups [(cat, slg)] if and
    only if it is [CONTENT_BASE/cat/slg/index.mdx] with [cat] and [slg]
    non-empty and free of slashes. *)
Theorem matchIndex_spec p cat slg :
  matchIndex p = Some (cat, slg) ↔
  p = indexPath cat slg ∧ cat ≠ "" ∧ slg ≠ "" ∧
  includes cat "/" = false ∧ includes slg "/" = false.
Proof. apply matchIndex_iff. Qed.

Section RegistryMore.

Variable fetch : string → FetchResult.
Variable parseFrontmatter : string → string * string.

(** What a build that started from a miss and succeeded has produced. *)
Lemma getRegistry_built now_get now_set st tree v st' :
  cacheMissed now_get "registry" st →
  fetchJson fetch TREE_URL = Ok tree →
  getRegistry fetch parseFrontmatter now_get now_set st = (Ok v, st') →
  ∃ cs,
    v = VRegistry (registryOf cs) ∧
    Forall2 (λ entry c, category c = entry.1 ∧ slug c = entry.2)
      (treeEntries tree) cs ∧
    st' = cacheSet now_set "registry" v TTL.REGISTRY
            (snd (cacheGet now_get "registry" st)).
Proof.
  intros Hmiss Htree. rewrite getRegistry_miss by done. simpl. rewrite Htree.
  destruct (allOutcomes _ (treeEntries tree)) as [cs|e] eqn:Hcs; [|done].
  intros [= <- <-]. exists cs. split; [done|]. split; [|done].
  by apply allOutcomes_Ok_Forall2, built_components_fields in Hcs.
Qed.

Lemma getRegistry_miss_Ok now_get now_set st v st' :
  cacheMissed now_get "registry" st →
  getRegistry fetch parseFrontmatter now_get now_set st = (Ok v, st') →
  truthy v = true ∧
  st' !! "registry" = Some {| value := v; expiresAt := now_set + TTL.REGISTRY |}.
Proof.
  intros Hmiss. rewrite getRegistry_miss by done. simpl.
  destruct (fetchJson fetch TREE_URL) as [tree|e]; [|done].
  destruct (allOutcomes _ (treeEntries tree)) as [cs|e]; [|done].
  intros [= <- <-]. split; [done | apply cacheSet_lookup].
Qed.

(** An expired entry is as good as none. *)
Lemma getRegistry_stale now_get now_set st entry :
  st !! "registry" = Some entry → expiresAt entry < now_get →
  getRegistry fetch parseFrontmatter now_get now_set st
  = getRegistry fetch parseFrontmatter now_get now_set (delete "registry" st).
Proof.
  intros Hst Hold. rewrite !getRegistry_unfold.
  rewrite (cacheGet_stale now_get "registry" entry st Hst Hold).
  rewrite (cacheGet_miss now_get "registry" (delete "registry" st))
    by apply lookup_delete_eq.
  done.
Qed.

End RegistryMore.

(** X5. The registry is built once per hour: after a build that started
    from a miss and succeeded at [t2], every call up to [t2 + 60 min]
    resolves to the same registry and leaves the store as it is, whatever
    the network would answer. *)
Theorem getRegistry_cached fetch parse fetch' parse' t1 t2 t3 t4 st v st1 :
  cacheMissed t1 "registry" st →
  getRegistry fetch parse t1 t2 st = (Ok v, st1) →
  t3 <= t2 + TTL.REGISTRY →
  getRegistry fetch' parse' t3 t4 st1 = (Ok v, st1).
Proof.
  intros Hmiss Hcall Ht.
  destruct (getRegistry_miss_Ok _ _ _ _ _ _ _ Hmiss Hcall) as [Hv Hst].
  rewrite getRegistry_unfold. simpl.
  rewrite (cacheGet_fresh t3 "registry" _ st1 Hst) by (simpl; lia).
  simpl. by rewrite Hv.
Qed.

Lemma getRegistry_cached_witness :
  getRegistry offline sampleParse 7 8 (snd (getRegistry sampleFetch sampleParse 0 5 ∅))
  = (fst (getRegistry sampleFetch sampleParse 0 5 ∅),
     snd (getRegistry sampleFetch sampleParse 0 5 ∅)).
Proof.
  assert (Hmiss : cacheMissed 0 "registry" ∅) by exact I.
  apply (getRegistry_cached sampleFetch sampleParse offline sampleParse 0 5 7 8 ∅ _ _ Hmiss);
    [reflexivity | vm_compute; discriminate].
Defined.

(** X6. A registry past its hour is never served: the call behaves as if
    the cache held no registry, so the expired entry is gone afterwards
    and, when the tree listing fails, the call rejects; it does not fall
    back to the stale registry. *)
Theorem getRegistry_expired fetch parse now_get now_set st entry :
  st !! "registry" = Some entry →
  expiresAt entry < now_get →
  getRegistry fetch parse now_get now_set st
  = getRegistry fetch parse now_get now_set (delete "registry" st) ∧
  (treeListingFails fetch →
   ∃ e, getRegistry fetch parse now_get now_set st = (Throw e, delete "registry" st)).
Proof.
  intros Hst Hold. split; [by eapply getRegistry_stale|].
  intros [e He]%fetchJson_Throw. exists e.
  rewrite getRegistry_unfold.
  rewrite (cacheGet_stale now_get "registry" entry st Hst Hold). simpl.
  by rewrite He.
Qed.

Lemma getRegistry_expired_witness :
  ∃ e,
    getRegistry offline sampleParse (5 + TTL.REGISTRY + 1) (5 + TTL.REGISTRY + 2)
      (cacheSet 5 "registry" (VRegistry exampleRegistry) TTL.REGISTRY ∅)
    = (Throw e,
       delete "registry"
         (cacheSet 5 "registry" (VRegistry exampleRegistry) TTL.REGISTRY ∅)).
Proof.
  destruct (getRegistry_expired offline sampleParse
              (5 + TTL.REGISTRY + 1) (5 + TTL.REGISTRY + 2)
              (cacheSet 5 "registry" (VRegistry exampleRegistry) TTL.REGISTRY ∅)
              {| value := VRegistry exampleRegistry;
                 expiresAt := 5 + TTL.REGISTRY |})
    as [_ Hfail]; [apply cacheSet_lookup | simpl; lia |].
  exact (Hfail I).
Defined.

(** X7. The tree listing tolerates no status outside 200..299, 404
    included: with no usable cached registry the call rejects with
    [GitHub API error: <status> <statusText>] and writes nothing. *)
Theorem getRegistry_tree_status fetch parse now_get now_set st res :
  cacheMissed now_get "registry" st →
  fetch TREE_URL = Resolved res →
  ok res = false →
  getRegistry fetch parse now_get now_set st
  = (Throw (GitHubApiError (status res) (statusText res)),
     snd (cacheGet now_get "registry" st)).
Proof.
  intros Hmiss Hres Hok. rewrite getRegistry_miss by done. simpl.
  unfold fetchJson. by rewrite Hres, Hok.
Qed.

Lemma getRegistry_tree_status_witness :
  getRegistry (λ _, Resolved notFoundResponse) sampleParse 0 5 ∅
  = (Throw (GitHubApiError 404 "Not Found"), ∅).
Proof.
  assert (Hmiss : cacheMissed 0 "registry" ∅) by exact I.
  apply (getRegistry_tree_status (λ _, Resolved notFoundResponse) sampleParse 0 5 ∅
           notFoundResponse Hmiss); reflexivity.
Defined.

(* ===================================================================== *)
(** * Further properties of the resolver and of the listing *)
(* ===================================================================== *)

Lemma built_slugs entries cs :
  Forall2 (λ (entry : string * string) c, category c = entry.1 ∧ slug c = entry.2)
    entries cs →
  map slug cs = entries.*2.
Proof.
  induction 1 as [|entry c entries cs [_ Hs] _ IH]; [done|].
  simpl. by rewrite Hs, IH.
Qed.

Lemma built_member entries cs c :
  Forall2 (λ (entry : string * string) c, category c = entry.1 ∧ slug c = entry.2)
    entries cs →
  c ∈ cs → (category c, slug c) ∈ entries.
Proof.
  intros Hall [i Hi]%list_elem_of_lookup_1.
  destruct (Forall2_lookup_r _ _ _ _ _ Hall Hi) as ([cat slg] & Hentry & Hc & Hs).
  simpl in *. subst. by eapply list_elem_of_lookup_2.
Qed.

Lemma lastWithSlug_unique cs c :
  NoDup (map slug cs) → c ∈ cs → lastWithSlug (slug c) cs = Some c.
Proof.
  intros Hnd (front & back & ->)%list_elem_of_split.
  apply lastWithSlug_last_occurrence; [done|].
  rewrite map_app in Hnd. apply NoDup_app in Hnd as (_ & _ & Hback).
  simpl in Hback. apply NoDup_cons in Hback as [Hnotin _].
  apply Forall_forall. intros c' Hc' Heq. apply Hnotin.
  rewrite <- Heq. by apply (list_elem_of_fmap_2 slug).
Qed.

(** X8. What the registry lookup resolves to exists in the tree: when
    [resolveCategory], called without a usable category and with no usable
    cached registry, resolves to a location, its slug is the identifier
    asked for and its (category, slug) is a pair of a matched path of the
    tree listing; when it resolves to [null], no matched path has that
    slug. *)
Theorem resolveCategory_sound fetch parse component cat t1 t2 st tree result st' :
  cat = None ∨ cat = Some "" →
  cacheMissed t1 "registry" st →
  fetchJson fetch TREE_URL = Ok tree →
  resolveCategory fetch parse component cat t1 t2 st = (Ok result, st') →
  match result with
  | Some loc =>
      loc_slug loc = component ∧ (loc_category loc, component) ∈ treeEntries tree
  | None => component ∉ (treeEntries tree).*2
  end.
Proof.
  intros Hcat Hmiss Htree. rewrite resolveCategory_via_registry by done.
  destruct (getRegistry fetch parse t1 t2 st) as [[v|e] st1] eqn:Hreg; [|done].
  destruct (getRegistry_built _ _ _ _ _ _ _ _ Hmiss Htree Hreg) as (cs & -> & Hall & _).
  unfold locate, registryOf, ret. simpl. rewrite buildBySlug_lookup.
  destruct (lastWithSlug component cs) as [info|] eqn:Hlast.
  - intros [= <- _]. simpl.
    apply lastWithSlug_Some in Hlast as [Hin Hslug]. split; [done|].
    rewrite <- Hslug. by eapply built_member.
  - intros [= <- _]. rewrite <- (built_slugs _ _ Hall).
    intros (c & -> & Hc)%list_elem_of_fmap.
    unfold lastWithSlug in Hlast. apply last_None in Hlast.
    eapply (filter_nil_not_elem_of (λ c0, slug c0 = slug c)); done.
Qed.

Lemma resolveCategory_sound_witness :
  loc_slug {| loc_category := "forms"; loc_slug := "text-field" |} = "text-field" ∧
  ("forms", "text-field") ∈ treeEntries sampleTree.
Proof.
  assert (Hmiss : cacheMissed 0 "registry" ∅) by exact I.
  exact (resolveCategory_sound sampleFetch sampleParse "text-field" None 0 5 ∅
           sampleTree
           (Some {| loc_category := "forms"; loc_slug := "text-field" |})
           (snd (resolveCategory sampleFetch sampleParse "text-field" None 0 5 ∅))
           (or_introl eq_refl) Hmiss eq_refl eq_refl).
Defined.

(** X9. Where the slugs of the tree are distinct, every listed component
    resolves to its own category: with no usable cached registry, a tree
    listing that succeeds and metadata fetches that all settle, each
    matched path's slug resolves to exactly that path's (category, slug). *)
Theorem resolveCategory_complete fetch parse cat slg t1 t2 st tree :
  cacheMissed t1 "registry" st →
  fetchJson fetch TREE_URL = Ok tree →
  metadataSettles fetch (treeEntries tree) →
  NoDup (treeEntries tree).*2 →
  (cat, slg) ∈ treeEntries tree →
  fst (resolveCategory fetch parse slg None t1 t2 st)
  = Ok (Some {| loc_category := cat; loc_slug := slg |}).
Proof.
  intros Hmiss Htree Hall Hnd Hin.
  rewrite resolveCategory_via_registry by by left.
  destruct (allOutcomes_total (fetchComponent fetch parse) (treeEntries tree))
    as [cs Hcs].
  { eapply Forall_impl; [exact Hall|]. intros entry. apply fetchComponent_total. }
  rewrite getRegistry_miss by done. simpl. rewrite Htree, Hcs.
  apply allOutcomes_Ok_Forall2, built_components_fields in Hcs.
  unfold locate, ret. simpl. rewrite buildBySlug_lookup.
  apply list_elem_of_lookup_1 in Hin as [i Hi].
  destruct (Forall2_lookup_l _ _ _ _ _ Hcs Hi) as (c & Hc & Hcat & Hslug).
  simpl in *. subst.
  rewrite (lastWithSlug_unique cs c); [done | | by eapply list_elem_of_lookup_2].
  by rewrite (built_slugs _ _ Hcs).
Qed.

Lemma resolveCategory_complete_witness :
  fst (resolveCategory uniqueFetch sampleParse "button" None 0 5 ∅)
  = Ok (Some {| loc_category := "actions"; loc_slug := "button" |}).
Proof.
  assert (Hmiss : cacheMissed 0 "registry" ∅) by exact I.
  assert (Htree : fetchJson uniqueFetch TREE_URL = Ok uniqueTree) by reflexivity.
  apply (resolveCategory_complete uniqueFetch sampleParse "actions" "button" 0 5 ∅
           uniqueTree Hmiss Htree).
  - repeat apply Forall_cons_2; try apply Forall_nil_2;
      vm_compute; intros [Hne Hok]; by apply Hne.
  - apply (NoDup_cons_2 "button"); [|apply (NoDup_cons_2 "text-field");
      [apply not_elem_of_nil | apply NoDup_nil_2]].
    intros Hin. apply list_elem_of_singleton in Hin. discriminate.
  - apply list_elem_of_here.
Defined.

(** X10. [listComponents] answers from the registry it obtains: a
    non-empty category selects, in registry order, exactly the components
    of that category; no category, or the empty string, lists all
    components; and a registry that cannot be obtained rejects the call. *)
Theorem listComponents_spec fetch parse cat now_get now_set st :
  (∀ r st',
     getRegistry fetch parse now_get now_set st = (Ok (VRegistry r), st') →
     ∃ listed,
       listComponents fetch parse cat now_get now_set st = (Ok (Some listed), st') ∧
       match cat with
       | Some (String a c) =>
           listed `sublist_of` components r ∧
           ∀ ci, ci ∈ listed ↔ ci ∈ components r ∧ category ci = String a c
       | _ => listed = components r
       end) ∧
  (∀ e st',
     getRegistry fetch parse now_get now_set st = (Throw e, st') →
     listComponents fetch parse cat now_get now_set st = (Throw e, st')).
Proof.
  unfold listComponents, bind. split.
  - intros r st' ->. destruct cat as [[|a c]|]; simpl.
    + by eexists.
    + eexists. split; [reflexivity|]. split.
      * induction (components r) as [|ci cs IH]; simpl; [constructor|].
        case_bool_decide; by constructor.
      * intros ci. rewrite list_elem_of_In, filter_In, <- list_elem_of_In.
        by rewrite bool_decide_eq_true.
    + by eexists.
  - by intros e st' ->.
Qed.

(** The specification's scenario: with [forms] as filter only the
    components under [forms] are listed. *)
Example listComponents_forms :
  fst (listComponents uniqueFetch sampleParse (Some "forms") 0 5 ∅)
  = Ok (Some [bareComponent "forms" "text-field"]).
Proof. vm_compute. reflexivity. Qed.

(* ===================================================================== *)
(** * Further properties of the suggestions *)
(* ===================================================================== *)

Lemma filter_sublist_of {A} (f : A → bool) (l : list A) :
  List.filter f l `sublist_of` l.
Proof.
  induction l as [|x l IH]; simpl; [constructor|].
  destruct (f x); by constructor.
Qed.

(** X11. Suggestions come from the registry and nowhere else: the result
    is a subsequence of the registry's slugs, in registry order, of at
    most five entries, and each suggested slug belongs to a component
    whose slug, or whose lower-cased name, contains the lower-cased input. *)
Theorem suggestComponent_from_registry input registry :
  suggestComponent input registry `sublist_of` map slug (components registry) ∧
  (length (suggestComponent input registry) <= 5)%nat ∧
  ∀ s, s ∈ suggestComponent input registry →
       ∃ c, c ∈ components registry ∧ slug c = s ∧
            (includes (slug c) (toLowerCase input) = true ∨
             includes (toLowerCase (name c)) (toLowerCase input) = true).
Proof.
  unfold suggestComponent. split; [|split].
  - apply (fmap_sublist slug). etrans; [apply sublist_take|].
    apply filter_sublist_of.
  - rewrite length_map, length_take. lia.
  - intros s (c & -> & Hc)%list_elem_of_fmap.
    apply (λ H, elem_of_sublist _ _ _ H (sublist_take _ _)) in Hc.
    apply list_elem_of_In in Hc. apply filter_In in Hc as [Hin Hmatch].
    exists c. split; [by apply list_elem_of_In|]. split; [done|].
    by apply orb_true_iff.
Qed.

Lemma suggestComponent_lower_slugs_witness :
  suggestComponent "BUTT" exampleRegistry
  = suggestComponent_spec "BUTT" exampleRegistry.
Proof.
  apply (suggestComponent_lower_slugs "BUTT" exampleRegistry).
  repeat apply Forall_cons_2; try apply Forall_nil_2; reflexivity.
Defined.

(* ===================================================================== *)
(** * Further properties of the static content fetcher *)
(* ===================================================================== *)

(** X12. [fetchExample] has the contract of [fetchMdx] with its own URL,
    key and TTL, and an omitted name is [default]. When the cache has
    nothing usable under the key: a 404 resolves to [null], an error
    status or a failed connection rejects the call with that error, and
    neither writes; a non-empty snippet is returned and cached for 30
    minutes; an empty one is returned uncached. *)
Theorem fetchExample_spec fetch cat component nm now_get now_set st :
  let name := default "default" nm in
  let key := "example:" +:+ cat +:+ "/" +:+ component +:+ "/" +:+ name in
  let url := exampleUrl cat component name in
  let st1 := snd (cacheGet now_get key st) in
  cacheMissed now_get key st →
  st1 ⊆ st ∧
  (rawNotFound fetch url →
     fetchExample fetch cat component nm now_get now_set st = (Ok None, st1)) ∧
  (rawFails fetch url →
     ∃ e, fetchRaw fetch url = Throw e ∧
          fetchExample fetch cat component nm now_get now_set st = (Throw e, st1)) ∧
  (∀ body, rawSucceeds fetch url body → body ≠ "" →
     fetchExample fetch cat component nm now_get now_set st
     = (Ok (Some (VString body)),
        <[key := {| value := VString body; expiresAt := now_set + 30 * 60 * 1000 |}]> st1)) ∧
  (rawSucceeds fetch url "" →
     fetchExample fetch cat component nm now_get now_set st
     = (Ok (Some (VString "")), st1)).
Proof.
  intros name key url st1 Hmiss.
  assert (Hload : fetchExample fetch cat component nm now_get now_set st =
    match fetchRaw fetch url with
    | Throw e => (Throw e, st1)
    | Ok None => (Ok None, st1)
    | Ok (Some txt) =>
        if nonEmpty txt
        then (Ok (Some (VString txt)),
              cacheSet now_set key (VString txt) TTL.EXAMPLE st1)
        else (Ok (Some (VString txt)), st1)
    end).
  { rewrite fetchExample_unfold. simpl. fold name.
    change (exampleKey cat component name) with key. fold url st1.
    unfold cacheMissed in Hmiss.
    destruct (fst (cacheGet now_get key st)) as [v|]; [|done].
    by rewrite Hmiss. }
  split; [apply cacheGet_store_subseteq|].
  split; [|split; [|split]].
  - intros H404. by rewrite Hload, (fetchRaw_not_found _ _ H404).
  - intros [e He]%fetchRaw_Throw_iff. exists e. split; [done|].
    by rewrite Hload, He.
  - intros body Hbody Hne.
    by rewrite Hload, (fetchRaw_succeeds _ _ _ Hbody), nonEmpty_true.
  - intros Hbody. by rewrite Hload, (fetchRaw_succeeds _ _ _ Hbody).
Qed.

Lemma fetchExample_spec_witness :
  fetchExample sampleFetch "actions" "button" None 0 5 ∅ = (Ok None, ∅).
Proof.
  assert (Hmiss : cacheMissed 0 "example:actions/button/default" ∅) by exact I.
  destruct (fetchExample_spec sampleFetch "actions" "button" None 0 5 ∅ Hmiss)
    as (_ & H404 & _).
  apply H404. reflexivity.
Defined.

(** X13. A fetched document is served from the cache for 30 minutes and
    not a moment longer: after a call that found nothing usable in the
    cache and resolved to a non-empty text at [t2], a call up to
    [t2 + 30 min] resolves to that text with the store untouched,
    whatever the network would answer; a later call goes to the network
    again, and when that answers 404 it resolves to [null] and the old
    entry is gone. *)
Theorem fetchMdx_cached fetch cat component tab t1 t2 t3 t4 st v st1 fetch' :
  cacheMissed t1 (mdxKey cat component (tabName tab)) st →
  fetchMdx fetch cat component tab t1 t2 st = (Ok (Some v), st1) →
  truthy v = true →
  (t3 <= t2 + TTL.MDX →
     fetchMdx fetch' cat component tab t3 t4 st1 = (Ok (Some v), st1)) ∧
  (t2 + TTL.MDX < t3 →
     rawNotFound fetch' (mdxUrl cat component (tabName tab)) →
     fetchMdx fetch' cat component tab t3 t4 st1
     = (Ok None, delete (mdxKey cat component (tabName tab)) st1)).
Proof.
  intros Hmiss Hcall Hv.
  pose proof (fetchMdx_miss_cached _ _ _ _ _ _ _ _ _ Hmiss Hcall Hv) as Hst.
  split.
  - intros Ht. apply fetchMdx_hit; [|done].
    by apply (cacheGet_hit_after _ _ _ _ _ Hst).
  - intros Ht H404. rewrite fetchMdx_unfold. simpl.
    rewrite (cacheGet_stale t3 _ _ st1 Hst) by (simpl; lia). simpl.
    by rewrite (fetchRaw_not_found _ _ H404).
Qed.

Lemma fetchMdx_cached_witness :
  fetchMdx offline "forms" "text-field" overview 7 8
    (snd (fetchMdx sampleFetch "forms" "text-field" overview 0 5 ∅))
  = (Ok (Some (VString "# Text field")),
     snd (fetchMdx sampleFetch "forms" "text-field" overview 0 5 ∅)).
Proof.
  assert (Hmiss : cacheMissed 0 (mdxKey "forms" "text-field" (tabName overview)) ∅)
    by exact I.
  assert (Hcall : fetchMdx sampleFetch "forms" "text-field" overview 0 5 ∅
                  = (Ok (Some (VString "# Text field")),
                     snd (fetchMdx sampleFetch "forms" "text-field" overview 0 5 ∅)))
    by reflexivity.
  destruct (fetchMdx_cached sampleFetch "forms" "text-field" overview 0 5 7 8 ∅
              (VString "# Text field")
              (snd (fetchMdx sampleFetch "forms" "text-field" overview 0 5 ∅))
              offline Hmiss Hcall eq_refl) as [Hhit _].
  apply Hhit. vm_compute. discriminate.
Defined.

(* ===================================================================== *)
(** * Further properties of the dynamic extractor *)
(* ===================================================================== *)

Lemma scrapeAccordion_Ok acc secs w secs' w' :
  scrapeAccordion acc secs w = (Ok secs', w') →
  secs' = secs ++ option_list (accordionSection acc).
Proof.
  unfold scrapeAccordion, accordionSection, bind, await, ret, catchIgnore.
  destruct (acc_heading acc) as [hd|]; [|done].
  destruct (acc_isExpanded acc) as [[]|]; simpl; [| |done].
  - destruct (acc_props acc) as [[|p ps]|]; [| |done]; intros [= <- _]; simpl;
      [by rewrite app_nil_r | done].
  - destruct (acc_button acc) as [[]|]; simpl; [| |done].
    + destruct (acc_click acc); [|done].
      destruct (acc_props acc) as [[|p ps]|]; [| |done]; intros [= <- _]; simpl;
        [by rewrite app_nil_r | done].
    + destruct (acc_props acc) as [[|p ps]|]; [| |done]; intros [= <- _]; simpl;
        [by rewrite app_nil_r | done].
Qed.

Lemma scrapeAccordions_Ok accs secs w secs' w' :
  scrapeAccordions accs secs w = (Ok secs', w') →
  secs' = secs ++ omap accordionSection accs.
Proof.
  revert secs w. induction accs as [|acc accs IH]; intros secs w; simpl.
  - unfold ret. intros [= <- _]. by rewrite app_nil_r.
  - unfold bind. destruct (scrapeAccordion acc secs w) as [[secs1|e] w1] eqn:E; [|done].
    apply scrapeAccordion_Ok in E as ->. intros H%IH. rewrite H, <- app_assoc.
    by destruct (accordionSection acc).
Qed.

Lemma accordionSection_filled acc section :
  accordionSection acc = Some section → filledSection section.
Proof.
  unfold accordionSection.
  destruct (acc_heading acc) as [hd|]; [|done].
  destruct (acc_props acc) as [[|p ps]|]; try done.
  intros [= <-]. split; [done|]. simpl. destruct hd; done.
Qed.

(** The two ways the guarded body can end. *)
Lemma guardedBody_cases pw cat component now_set w r w' :
  guardedBody pw cat component now_set w = (r, w') →
  (∃ e, r = Throw e ∧ w' = w) ∨
  (∃ mainProps accs,
     extractTable pw = Ok mainProps ∧ accordions pw = Ok accs ∧
     let data :=
       {| sections :=
            match mainProps with
            | [] => []
            | _ :: _ => [{| heading := "Properties"; properties := mainProps |}]
            end ++ omap accordionSection accs |} in
     r = Ok (VDevelop data) ∧
     w' = withStore (cacheSet now_set (developKey cat component) (VDevelop data)
                       TTL.DEVELOP) w).
Proof.
  unfold guardedBody, bind, await.
  destruct (goto pw _); [|intros [= <- <-]; left; by eexists].
  destruct (waitForSelector pw); [|intros [= <- <-]; left; by eexists].
  destruct (extractTable pw) as [mainProps|]; [|intros [= <- <-]; left; by eexists].
  destruct (accordions pw) as [accs|]; [|intros [= <- <-]; left; by eexists].
  destruct (scrapeAccordions accs _ w) as [[secs|e] w1] eqn:E.
  - pose proof (scrapeAccordions_world _ _ _ _ _ E) as ->.
    apply scrapeAccordions_Ok in E as ->.
    intros [= <- <-]. right. by exists mainProps, accs.
  - apply scrapeAccordions_world in E as ->.
    intros [= <- <-]. left. by eexists.
Qed.

(** The ways [scrapeDevelop] past the cache can end, by what they leave
    in the store: nothing new, or the data of a completed extraction. *)
Lemma scrapeFresh_cases pw cat component now_set w r w' :
  scrapeFresh pw cat component now_set w = (r, w') →
  (∃ e, r = Throw e ∧ store w' = store w) ∨
  (∃ mainProps accs,
     extractTable pw = Ok mainProps ∧ accordions pw = Ok accs ∧
     let data :=
       {| sections :=
            match mainProps with
            | [] => []
            | _ :: _ => [{| heading := "Properties"; properties := mainProps |}]
            end ++ omap accordionSection accs |} in
     store w' = cacheSet now_set (developKey cat component) (VDevelop data)
                  TTL.DEVELOP (store w) ∧
     (r = Ok (VDevelop data) ∧ close pw = Ok () ∨
      ∃ e, r = Throw e ∧ close pw = Throw e)).
Proof.
  unfold scrapeFresh, bind, await, getBrowser, openContext, tryFinally, closeContext.
  destruct (negb (browser w) || negb (isConnected pw));
    [destruct (launch pw); [|intros [= <- <-]; left; by eexists]|];
    (destruct (newContext pw); [|intros [= <- <-]; left; by eexists]);
    (destruct (route pw); [|intros [= <- <-]; left; by eexists]);
    (destruct (newPage pw); [|intros [= <- <-]; left; by eexists]);
    match goal with
    | |- context [guardedBody _ _ _ _ ?w0] =>
        destruct (guardedBody pw cat component now_set w0) as [r2 w2] eqn:E
    end;
    apply guardedBody_cases in E
      as [(e & -> & ->) | (mainProps & accs & Hmain & Haccs & -> & ->)];
    (destruct (close pw) as [[]|e'] eqn:Hclose; intros [= <- <-]);
    first [ left; by eexists
          | right; exists mainProps, accs; repeat split; try done;
            first [ by left | right; by eexists ] ].
Qed.

(** X14. What a scrape returns: a call of [scrapeDevelop] that found
    nothing usable in the cache and resolved returns scraped data whose
    sections are, in this order, the main table under ["Properties"] if
    it has rows, then one section per accordion that has rows, under its
    heading or under ["Other"]; no section is empty and no heading is. *)
Theorem scrapeDevelop_sections pw cat component now_get now_set w v w' :
  cacheMissed now_get (developKey cat component) (store w) →
  scrapeDevelop pw cat component now_get now_set w = (Ok v, w') →
  ∃ mainProps accs,
    extractTable pw = Ok mainProps ∧ accordions pw = Ok accs ∧
    v = VDevelop
          {| sections :=
               match mainProps with
               | [] => []
               | _ :: _ => [{| heading := "Properties"; properties := mainProps |}]
               end ++ omap accordionSection accs |} ∧
    ∀ d, v = VDevelop d → Forall filledSection (sections d).
Proof.
  intros Hmiss. rewrite scrapeDevelop_unfold. simpl. unfold cacheMissed in Hmiss.
  assert (Hfresh : ∀ w1, scrapeFresh pw cat component now_set w1 = (Ok v, w') →
    ∃ mainProps accs,
      extractTable pw = Ok mainProps ∧ accordions pw = Ok accs ∧
      v = VDevelop
            {| sections :=
                 match mainProps with
                 | [] => []
                 | _ :: _ => [{| heading := "Properties"; properties := mainProps |}]
                 end ++ omap accordionSection accs |} ∧
      ∀ d, v = VDevelop d → Forall filledSection (sections d)).
  { intros w1 [(e & He & _) | (mainProps & accs & Hmain & Haccs & _ & Hr)]%scrapeFresh_cases;
      [done|].
    destruct Hr as [[Hv _] | (e & He & _)]; [|done].
    injection Hv as ->. exists mainProps, accs. repeat split; try done.
    intros d [= <-]. simpl. apply Forall_app. split.
    - destruct mainProps; [constructor|]. by repeat constructor.
    - apply Forall_forall. intros section (acc & _ & Hacc)%list_elem_of_omap.
      by eapply accordionSection_filled. }
  destruct (fst (cacheGet now_get _ (store w))) as [v0|]; [rewrite Hmiss|];
    apply Hfresh.
Qed.

Lemma scrapeDevelop_sections_witness :
  ∃ mainProps accs,
    extractTable samplePage = Ok mainProps ∧ accordions samplePage = Ok accs ∧
    fst (scrapeDevelop samplePage "actions" "button" 0 5 freshWorld)
    = Ok (VDevelop
            {| sections :=
                 match mainProps with
                 | [] => []
                 | _ :: _ => [{| heading := "Properties"; properties := mainProps |}]
                 end ++ omap accordionSection accs |}).
Proof.
  assert (Hmiss : cacheMissed 0 (developKey "actions" "button") (store freshWorld))
    by exact I.
  destruct (scrapeDevelop_sections samplePage "actions" "button" 0 5 freshWorld
              (VDevelop
                 {| sections :=
                      [ {| heading := "Properties"; properties := [unionTyped] |} ] |})
              (snd (scrapeDevelop samplePage "actions" "button" 0 5 freshWorld))
              Hmiss eq_refl)
    as (mainProps & accs & Hmain & Haccs & Hv & _).
  exists mainProps, accs. split; [done|]. split; [done|]. by rewrite <- Hv.
Defined.

(** X15. The expansion wait is advisory: whatever
    [accordion.waitForSelector] answers, a timeout or anything else, the
    loop over the accordions ends the same way with the same sections.
    Only what the table query finds afterwards counts. *)
Theorem scrapeAccordions_wait_ignored (answer : Accordion → Outcome unit) accs secs w :
  scrapeAccordions (map (λ acc, withWait (answer acc) acc) accs) secs w
  = scrapeAccordions accs secs w.
Proof.
  revert secs w. induction accs as [|acc accs IH]; intros secs w; [done|].
  simpl. unfold bind.
  assert (Hone : scrapeAccordion (withWait (answer acc) acc) secs w
                 = scrapeAccordion acc secs w).
  { unfold scrapeAccordion, bind, await, ret, catchIgnore, withWait. simpl.
    destruct (acc_heading acc); [|done].
    destruct (acc_isExpanded acc) as [[]|]; simpl; [done| |done].
    destruct (acc_button acc) as [[]|]; simpl; [|done|done].
    destruct (acc_click acc); [|done].
    by destruct (answer acc), (acc_waitForSelector acc). }
  rewrite Hone. destruct (scrapeAccordion acc secs w) as [[secs1|e] w1]; [|done].
  apply IH.
Qed.

(** X16. What a rejected scrape leaves in the cache. A call of
    [scrapeDevelop] that rejects has added nothing to the store, with one
    exception: when the extraction completed and only [context.close()]
    failed, the call rejects with that error although the extracted data
    has been cached under the key. *)
Theorem scrapeDevelop_rejected_store pw cat component now_get now_set w e w' :
  scrapeDevelop pw cat component now_get now_set w = (Throw e, w') →
  store w' ⊆ store w ∨
  (close pw = Throw e ∧
   ∃ d, store w' !! developKey cat component
        = Some {| value := VDevelop d; expiresAt := now_set + TTL.DEVELOP |}).
Proof.
  rewrite scrapeDevelop_unfold. simpl.
  assert (Hfresh : ∀ w1, store w1 ⊆ store w →
    scrapeFresh pw cat component now_set w1 = (Throw e, w') →
    store w' ⊆ store w ∨
    (close pw = Throw e ∧
     ∃ d, store w' !! developKey cat component
          = Some {| value := VDevelop d; expiresAt := now_set + TTL.DEVELOP |})).
  { intros w1 Hsub [(e' & _ & Hst) | (mainProps & accs & _ & _ & Hst & Hr)]%scrapeFresh_cases.
    - left. by rewrite Hst.
    - right. destruct Hr as [[Hr _] | (e' & [= <-] & Hclose)]; [done|].
      split; [done|]. eexists. rewrite Hst. apply cacheSet_lookup. }
  destruct (fst (cacheGet now_get _ (store w))) as [v0|]; [destruct (truthy v0); [done|]|];
    apply Hfresh; apply cacheGet_store_subseteq.
Qed.

Lemma scrapeDevelop_rejected_store_witness :
  store (snd (scrapeDevelop stickyPage "actions" "button" 0 5 freshWorld))
    ⊆ store freshWorld ∨
  (close stickyPage = Throw (BrowserError "browserContext.close: Target closed") ∧
   ∃ d, store (snd (scrapeDevelop stickyPage "actions" "button" 0 5 freshWorld))
          !! developKey "actions" "button"
        = Some {| value := VDevelop d; expiresAt := 5 + TTL.DEVELOP |}).
Proof.
  apply (scrapeDevelop_rejected_store stickyPage "actions" "button" 0 5 freshWorld
           (BrowserError "browserContext.close: Target closed")).
  reflexivity.
Defined.

(** A scrape whose context fails to close rejects, and yet the next call
    is answered from the cache. *)
Example scrapeDevelop_stickyPage :
  fst (scrapeDevelop stickyPage "actions" "button" 0 5 freshWorld)
  = Throw (BrowserError "browserContext.close: Target closed") ∧
  fst (scrapeDevelop noBrowser "actions" "button" 7 8
         (snd (scrapeDevelop stickyPage "actions" "button" 0 5 freshWorld)))
  = Ok (VDevelop
          {| sections := [ {| heading := "Properties"; properties := [unionTyped] |} ] |}).
Proof. split; reflexivity. Qed.

Lemma open_then_close (n : nat) (open : gset nat) :
  n ∉ open → ({[n]} ∪ open) ∖ {[n]} = open.
Proof.
  intros Hn. apply set_eq. intros x.
  rewrite elem_of_difference, elem_of_union, elem_of_singleton. split.
  - by intros [[->|Hx] Hne].
  - intros Hx. split; [by right|]. by intros ->.
Qed.

(** X17. Scoped release, where it holds: when the page is created and
    [context.close()] itself succeeds, a call of [scrapeDevelop] leaves
    the set of open contexts exactly as it found it, however the call
    ends: navigation or render timeout, failed table query, failed click,
    or success. *)
Theorem scrapeDevelop_contexts_restored pw cat component now_get now_set w r w' :
  nextContext w ∉ openContexts w →
  route pw = Ok () → newPage pw = Ok () → close pw = Ok () →
  scrapeDevelop pw cat component now_get now_set w = (r, w') →
  openContexts w' = openContexts w.
Proof.
  intros Hfree Hroute Hpage Hclose. rewrite scrapeDevelop_unfold. simpl.
  assert (Hfresh : ∀ w1, openContexts w1 = openContexts w →
    nextContext w1 = nextContext w →
    scrapeFresh pw cat component now_set w1 = (r, w') →
    openContexts w' = openContexts w).
  { intros w1 Hctx Hnext.
    unfold scrapeFresh, bind, await, getBrowser, openContext, tryFinally, closeContext.
    rewrite Hroute, Hpage, Hclose.
    destruct (negb (browser w1) || negb (isConnected pw));
      [destruct (launch pw); [|by intros [= _ <-]]|];
      (destruct (newContext pw); [|by intros [= _ <-]]);
      match goal with
      | |- context [guardedBody _ _ _ _ ?w0] =>
          destruct (guardedBody pw cat component now_set w0) as [r2 w2] eqn:E
      end;
      apply guardedBody_contexts in E as (Hctx2 & _ & _); simpl in Hctx2;
      intros [= _ <-]; simpl; rewrite Hctx2, Hctx, Hnext;
      by apply open_then_close. }
  destruct (fst (cacheGet now_get _ (store w))) as [v0|];
    [destruct (truthy v0); [by intros [= _ <-]|]|]; by apply Hfresh.
Qed.

Lemma scrapeDevelop_contexts_restored_witness :
  openContexts (snd (scrapeDevelop samplePage "actions" "button" 0 5 freshWorld))
  = openContexts freshWorld.
Proof.
  apply (scrapeDevelop_contexts_restored samplePage "actions" "button" 0 5 freshWorld
           (fst (scrapeDevelop samplePage "actions" "button" 0 5 freshWorld)));
    [apply not_elem_of_empty | reflexivity | reflexivity | reflexivity |].
  apply surjective_pairing.
Defined.

(** X18. Shutdown and restart. [closeBrowser] is safe without a browser:
    it succeeds without calling [browser.close()]. With a browser, a
    failing [browser.close()] rejects and keeps the handle; a successful
    one clears it, and then the next scrape that goes past the cache
    launches a browser again, so a launch that fails rejects that call. *)
Theorem closeBrowser_spec closing w :
  (browser w = false → closeBrowser closing w = (Ok (), w)) ∧
  (∀ e, browser w = true → closing = Throw e →
        closeBrowser closing w = (Throw e, w)) ∧
  (∀ w1, closeBrowser closing w = (Ok (), w1) →
     browser w1 = false ∧ store w1 = store w ∧
     ∀ pw cat component now_get now_set e,
       cacheMissed now_get (developKey cat component) (store w1) →
       launch pw = Throw e →
       fst (scrapeDevelop pw cat component now_get now_set w1) = Throw e).
Proof.
  unfold closeBrowser. split; [|split].
  - by intros ->.
  - by intros e -> ->.
  - intros w1 Hclose.
    assert (Hw1 : browser w1 = false ∧ store w1 = store w).
    { destruct (browser w) eqn:Hb; [destruct closing; [|done]|];
        injection Hclose as <-; by simpl. }
    destruct Hw1 as [Hb Hst]. split; [done|]. split; [done|].
    intros pw cat component now_get now_set e Hmiss Hlaunch.
    rewrite scrapeDevelop_unfold. simpl. unfold cacheMissed in Hmiss.
    assert (Hfresh : ∀ w2, browser w2 = false →
      fst (scrapeFresh pw cat component now_set w2) = Throw e).
    { intros w2 Hb2. unfold scrapeFresh, bind, getBrowser.
      by rewrite Hb2, Hlaunch. }
    destruct (fst (cacheGet now_get _ (store w1))) as [v0|]; [rewrite Hmiss|];
      by apply Hfresh.
Qed.

(** X19. The browser is shared: with a handle that is still connected,
    [scrapeDevelop] does not launch a browser; the call ends the same way
    whatever [chromium.launch] would answer. *)
Theorem scrapeDevelop_reuses_browser pw answer cat component now_get now_set w :
  browser w = true → isConnected pw = true →
  scrapeDevelop (withLaunch answer pw) cat component now_get now_set w
  = scrapeDevelop pw cat component now_get now_set w.
Proof.
  intros Hb Hc. rewrite !scrapeDevelop_unfold. simpl.
  assert (Hfresh : ∀ w1, browser w1 = true →
    scrapeFresh (withLaunch answer pw) cat component now_set w1
    = scrapeFresh pw cat component now_set w1).
  { intros w1 Hb1. unfold scrapeFresh, bind, getBrowser. simpl.
    by rewrite Hb1, Hc. }
  destruct (fst (cacheGet now_get _ (store w))) as [v0|];
    [destruct (truthy v0); [done|]|]; by apply Hfresh.
Qed.

Lemma scrapeDevelop_reuses_browser_witness :
  scrapeDevelop (withLaunch (Throw (BrowserError "browserType.launch: failed")) samplePage)
    "forms" "text-field" 7 8
    (snd (scrapeDevelop samplePage "actions" "button" 0 5 freshWorld))
  = scrapeDevelop samplePage "forms" "text-field" 7 8
      (snd (scrapeDevelop samplePage "actions" "button" 0 5 freshWorld)).
Proof.
  apply (scrapeDevelop_reuses_browser samplePage
           (Throw (BrowserError "browserType.launch: failed"))
           "forms" "text-field" 7 8
           (snd (scrapeDevelop samplePage "actions" "button" 0 5 freshWorld)));
    reflexivity.
Defined.

(* ===================================================================== *)
(** * The cache holds what its readers expect *)
(* ===================================================================== *)

Lemma storeTyped_cacheGet now key st :
  storeTyped st → storeTyped (snd (cacheGet now key st)).
Proof.
  intros Hst k e Hk. apply (Hst k e).
  eapply lookup_weaken; [exact Hk | apply cacheGet_store_subseteq].
Qed.

Lemma storeTyped_cacheSet now key v ttl st :
  storeTyped st → wellTyped key v → storeTyped (cacheSet now key v ttl st).
Proof.
  intros Hst Hv k e. unfold cacheSet. destruct (decide (key = k)) as [<-|Hne].
  - rewrite lookup_insert_eq. by intros [= <-].
  - rewrite lookup_insert_ne by done. apply Hst.
Qed.

Lemma storeTyped_hit now key st v :
  storeTyped st → fst (cacheGet now key st) = Some v → wellTyped key v.
Proof.
  intros Hst. rewrite cacheGet_fst.
  destruct (st !! key) as [e|] eqn:Hk; [|done].
  destruct (now >? expiresAt e); [done|]. intros [= <-]. by apply (Hst key).
Qed.

Lemma wellTyped_registry v : wellTyped "registry" v → ∃ r, v = VRegistry r.
Proof. destruct v as [s|r|d]; simpl; [by intros [_ [?|?]] | by eexists | done]. Qed.

Lemma wellTyped_text cat component tab v :
  wellTyped (mdxKey cat component tab) v → ∃ s, v = VString s.
Proof. destruct v as [s|r|d]; simpl; [by eexists | done | done]. Qed.

Lemma wellTyped_example cat component nm v :
  wellTyped (exampleKey cat component nm) v → ∃ s, v = VString s.
Proof. destruct v as [s|r|d]; simpl; [by eexists | done | done]. Qed.

Lemma wellTyped_develop cat component v :
  wellTyped (developKey cat component) v → ∃ d, v = VDevelop d.
Proof.
  destruct v as [s|r|d]; simpl; [by intros [_ [?|?]] | done | by eexists].
Qed.

Lemma fetchComponents_no_TypeError fetch parse es :
  allOutcomes (fetchComponent fetch parse) es ≠ Throw TypeError.
Proof.
  induction es as [|[c s] es IH]; [done|].
  simpl. unfold fetchComponent at 1, fetchRaw.
  destruct (fetch (indexUrl c s)) as [|res]; [done|].
  destruct (status res =? 404); simpl.
  - by destruct (allOutcomes _ es).
  - destruct (ok res); simpl; [|done].
    destruct (nonEmpty (text res)); simpl; [destruct (parse (text res))|];
      by destruct (allOutcomes _ es).
Qed.

(** X20. The unchecked casts of the cache reads are safe. Starting from a
    store in which every key family holds its own kind of value, every
    operation of [github.ts] leaves such a store, [getRegistry] resolves
    only to registries, [fetchMdx] and [fetchExample] only to texts, and
    neither [resolveCategory] nor [listComponents] ever trips over a
    cached value of another kind: no [TypeError], no [undefined]. *)
Theorem github_cache_typed fetch parse st t1 t2 :
  storeTyped st →
  (∀ r st', getRegistry fetch parse t1 t2 st = (r, st') →
     storeTyped st' ∧ ∀ v, r = Ok v → ∃ reg, v = VRegistry reg) ∧
  (∀ cat component tab r st',
     fetchMdx fetch cat component tab t1 t2 st = (r, st') →
     storeTyped st' ∧ ∀ v, r = Ok (Some v) → ∃ s, v = VString s) ∧
  (∀ cat component nm r st',
     fetchExample fetch cat component nm t1 t2 st = (r, st') →
     storeTyped st' ∧ ∀ v, r = Ok (Some v) → ∃ s, v = VString s) ∧
  (∀ component cat r st',
     resolveCategory fetch parse component cat t1 t2 st = (r, st') →
     storeTyped st' ∧ r ≠ Throw TypeError) ∧
  (∀ cat r st',
     listComponents fetch parse cat t1 t2 st = (r, st') →
     storeTyped st' ∧ r ≠ Throw TypeError ∧ r ≠ Ok None).
Proof.
  intros Hst.
  assert (Hreg : ∀ r st', getRegistry fetch parse t1 t2 st = (r, st') →
     storeTyped st' ∧ (∀ v, r = Ok v → ∃ reg, v = VRegistry reg)
     ∧ r ≠ Throw TypeError).
  { intros r st'. rewrite getRegistry_unfold. simpl.
    pose proof (storeTyped_cacheGet t1 "registry" st Hst) as Hst1.
    assert (Hbuild :
      match fetchJson fetch TREE_URL with
      | Ok tree =>
          match allOutcomes (fetchComponent fetch parse) (treeEntries tree) with
          | Ok cs =>
              (Ok (VRegistry {| components := cs; bySlug := buildBySlug cs |}),
               cacheSet t2 "registry"
                 (VRegistry {| components := cs; bySlug := buildBySlug cs |})
                 TTL.REGISTRY (snd (cacheGet t1 "registry" st)))
          | Throw e => (Throw e, snd (cacheGet t1 "registry" st))
          end
      | Throw e => (Throw e, snd (cacheGet t1 "registry" st))
      end = (r, st') →
      storeTyped st' ∧ (∀ v, r = Ok v → ∃ reg, v = VRegistry reg)
      ∧ r ≠ Throw TypeError).
    { unfold fetchJson.
      destruct (fetch TREE_URL) as [reason|res].
      { intros [= <- <-]. by repeat split. }
      destruct (ok res); simpl; [|intros [= <- <-]; by repeat split].
      destruct (json res) as [tree|]; [|intros [= <- <-]; by repeat split].
      destruct (allOutcomes _ (treeEntries tree)) as [cs|e] eqn:Hall.
      - intros [= <- <-]. split; [by apply storeTyped_cacheSet|].
        split; [|done]. intros v [= <-]. by eexists.
      - intros [= <- <-]. split; [done|]. split; [done|].
        intros [= ->]. by apply fetchComponents_no_TypeError in Hall. }
    destruct (fst (cacheGet t1 "registry" st)) as [v|] eqn:Hget; [|apply Hbuild].
    destruct (truthy v); [|apply Hbuild].
    intros [= <- <-]. split; [done|]. split; [|done].
    intros v' [= <-]. by apply wellTyped_registry, (storeTyped_hit t1 _ st). }
  split; [intros r st' H; destruct (Hreg r st' H) as (? & ? & ?); by split|].
  split; [|split; [|split]].
  - intros cat component tab r st'. rewrite fetchMdx_unfold. simpl.
    pose proof (storeTyped_cacheGet t1 (mdxKey cat component (tabName tab)) st Hst)
      as Hst1.
    assert (Hload :
      match fetchRaw fetch (mdxUrl cat component (tabName tab)) with
      | Ok (Some txt) =>
          if nonEmpty txt
          then (Ok (Some (VString txt)),
                cacheSet t2 (mdxKey cat component (tabName tab)) (VString txt)
                  TTL.MDX (snd (cacheGet t1 (mdxKey cat component (tabName tab)) st)))
          else (Ok (Some (VString txt)),
                snd (cacheGet t1 (mdxKey cat component (tabName tab)) st))
      | Ok None => (Ok None, snd (cacheGet t1 (mdxKey cat component (tabName tab)) st))
      | Throw e => (Throw e, snd (cacheGet t1 (mdxKey cat component (tabName tab)) st))
      end = (r, st') →
      storeTyped st' ∧ ∀ v, r = Ok (Some v) → ∃ s, v = VString s).
    { destruct (fetchRaw fetch _) as [[txt|]|e]; [| |].
      - destruct (nonEmpty txt) eqn:Htxt; intros [= <- <-].
        + split; [|intros v [= <-]; by eexists].
          apply storeTyped_cacheSet; [done|]. split; [by destruct txt|]. by left.
        + split; [done|]. intros v [= <-]. by eexists.
      - by intros [= <- <-].
      - by intros [= <- <-]. }
    destruct (fst (cacheGet t1 _ st)) as [v|] eqn:Hget; [|apply Hload].
    destruct (truthy v); [|apply Hload].
    intros [= <- <-]. split; [done|]. intros v' [= <-].
    by eapply wellTyped_text, (storeTyped_hit t1 _ st).
  - intros cat component nm r st'. rewrite fetchExample_unfold. simpl.
    pose proof (storeTyped_cacheGet t1
                  (exampleKey cat component (default "default" nm)) st Hst) as Hst1.
    assert (Hload :
      match fetchRaw fetch (exampleUrl cat component (default "default" nm)) with
      | Ok (Some txt) =>
          if nonEmpty txt
          then (Ok (Some (VString txt)),
                cacheSet t2 (exampleKey cat component (default "default" nm))
                  (VString txt) TTL.EXAMPLE
                  (snd (cacheGet t1 (exampleKey cat component (default "default" nm)) st)))
          else (Ok (Some (VString txt)),
                snd (cacheGet t1 (exampleKey cat component (default "default" nm)) st))
      | Ok None =>
          (Ok None, snd (cacheGet t1 (exampleKey cat component (default "default" nm)) st))
      | Throw e =>
          (Throw e, snd (cacheGet t1 (exampleKey cat component (default "default" nm)) st))
      end = (r, st') →
      storeTyped st' ∧ ∀ v, r = Ok (Some v) → ∃ s, v = VString s).
    { destruct (fetchRaw fetch _) as [[txt|]|e]; [| |].
      - destruct (nonEmpty txt) eqn:Htxt; intros [= <- <-].
        + split; [|intros v [= <-]; by eexists].
          apply storeTyped_cacheSet; [done|]. split; [by destruct txt|]. by right.
        + split; [done|]. intros v [= <-]. by eexists.
      - by intros [= <- <-].
      - by intros [= <- <-]. }
    destruct (fst (cacheGet t1 _ st)) as [v|] eqn:Hget; [|apply Hload].
    destruct (truthy v); [|apply Hload].
    intros [= <- <-]. split; [done|]. intros v' [= <-].
    by eapply wellTyped_example, (storeTyped_hit t1 _ st).
  - intros component cat r st'. unfold resolveCategory.
    assert (Hvia : bind (getRegistry fetch parse t1 t2) (locate component) st = (r, st') →
                   storeTyped st' ∧ r ≠ Throw TypeError).
    { unfold bind.
      destruct (getRegistry fetch parse t1 t2 st) as [[v|e] st1];
        destruct (Hreg _ _ eq_refl) as (Hst1 & Hv & Hne).
      - destruct (Hv v eq_refl) as [reg ->]. unfold locate, ret.
        destruct (bySlug reg !! component); by intros [= <- <-].
      - intros [= <- <-]. split; [done|]. intros [= ->]. done. }
    destruct cat as [[|a c]|]; [apply Hvia | | apply Hvia].
    simpl. unfold ret. by intros [= <- <-].
  - intros cat r st'. unfold listComponents, bind.
    destruct (getRegistry fetch parse t1 t2 st) as [[v|e] st1];
      destruct (Hreg _ _ eq_refl) as (Hst1 & Hv & Hne).
    + destruct (Hv v eq_refl) as [reg ->].
      destruct cat as [[|a c]|]; simpl; unfold ret; by intros [= <- <-].
    + intros [= <- <-]. split; [done|]. split; [|done]. intros [= ->]. done.
Qed.

Lemma storeTyped_empty : storeTyped ∅.
Proof. intros k e H. by rewrite lookup_empty in H. Qed.

Lemma github_cache_typed_witness :
  storeTyped (snd (getRegistry sampleFetch sampleParse 0 5 ∅)) ∧
  ∃ reg, fst (getRegistry sampleFetch sampleParse 0 5 ∅) = Ok (VRegistry reg).
Proof.
  destruct (github_cache_typed sampleFetch sampleParse ∅ 0 5 storeTyped_empty)
    as [Hreg _].
  destruct (Hreg (fst (getRegistry sampleFetch sampleParse 0 5 ∅))
              (snd (getRegistry sampleFetch sampleParse 0 5 ∅))
              (surjective_pairing _)) as [Hst Hv].
  split; [exact Hst|].
  destruct (fst (getRegistry sampleFetch sampleParse 0 5 ∅)) as [v|e] eqn:E;
    [|discriminate E].
  destruct (Hv v eq_refl) as [reg ->]. by exists reg.
Defined.

(** X21. The same for [scraper.ts]: from a store in which every key
    family holds its own kind of value, [scrapeDevelop] leaves such a
    store, also when it rejects, and resolves only to scraped data, which
    is what [formatDevelopData] is handed. *)
Theorem scraper_cache_typed pw cat component now_get now_set w r w' :
  storeTyped (store w) →
  scrapeDevelop pw cat component now_get now_set w = (r, w') →
  storeTyped (store w') ∧ ∀ v, r = Ok v → ∃ d, v = VDevelop d.
Proof.
  intros Hst. rewrite scrapeDevelop_unfold. simpl.
  pose proof (storeTyped_cacheGet now_get (developKey cat component) (store w) Hst)
    as Hst1.
  assert (Hfresh : ∀ w1, storeTyped (store w1) →
    scrapeFresh pw cat component now_set w1 = (r, w') →
    storeTyped (store w') ∧ ∀ v, r = Ok v → ∃ d, v = VDevelop d).
  { intros w1 Hw1 [(e & -> & ->) | (mainProps & accs & _ & _ & -> & Hr)]%scrapeFresh_cases.
    - by split.
    - split; [by apply storeTyped_cacheSet|].
      destruct Hr as [[-> _] | (e & -> & _)]; [|done].
      intros v [= <-]. by eexists. }
  destruct (fst (cacheGet now_get _ (store w))) as [v0|] eqn:Hget;
    [destruct (truthy v0)|]; try by apply Hfresh.
  intros [= <- <-]. split; [done|]. intros v [= <-].
  by eapply wellTyped_develop, (storeTyped_hit now_get _ (store w)).
Qed.

Lemma scraper_cache_typed_witness :
  storeTyped (store (snd (scrapeDevelop stickyPage "actions" "button" 0 5 freshWorld))).
Proof.
  apply (scraper_cache_typed stickyPage "actions" "button" 0 5 freshWorld
           (fst (scrapeDevelop stickyPage "actions" "button" 0 5 freshWorld))
           (snd (scrapeDevelop stickyPage "actions" "button" 0 5 freshWorld))
           storeTyped_empty (surjective_pairing _)).
Defined.

(* ===================================================================== *)
(** * Further properties of the table formatting *)
(* ===================================================================== *)

Lemma formatRow_columns_witness :
  unescapedPipes (formatRow unionTyped) = unescapedPipes tableHeader.
Proof. apply (formatRow_columns unionTyped). reflexivity. Defined.

(* ===================================================================== *)
(** * Properties of the frontmatter parser *)
(* ===================================================================== *)

Lemma takeLine_idem s : takeLine (takeLine s) = takeLine s.
Proof.
  induction s as [|c s IH]; [done|]. simpl.
  destruct (isLineTerminator c) eqn:Hc; [done|]. simpl. by rewrite Hc, IH.
Qed.

Lemma singleLine_cons c s :
  singleLine (String c s) ↔ isLineTerminator c = false ∧ singleLine s.
Proof.
  unfold singleLine. simpl. destruct (isLineTerminator c); split.
  - done.
  - by intros [? _].
  - by intros [= ->].
  - by intros [_ ->].
Qed.

Lemma singleLine_app x y : singleLine x → singleLine y → singleLine (x +:+ y).
Proof.
  intros Hx Hy. induction x as [|c x IH]; [done|].
  apply singleLine_cons in Hx as [Hc Hx].
  rewrite string_app_cons. apply singleLine_cons. auto.
Qed.

Lemma singleLine_dropSpaces s : singleLine s → singleLine (dropSpaces s).
Proof.
  induction s as [|c s IH]; [done|]. intros Hs. simpl.
  destruct (isSpace c); [|done]. apply singleLine_cons in Hs as [_ Hs]. auto.
Qed.

Lemma singleLine_trimEnd s : singleLine s → singleLine (trimEnd s).
Proof.
  induction s as [|c s IH]; [done|]. intros [Hc Hs]%singleLine_cons. simpl.
  specialize (IH Hs). destruct (trimEnd s) as [|d r].
  - destruct (isSpace c); [done|]. by apply singleLine_cons.
  - by apply singleLine_cons.
Qed.

Lemma singleLine_trim s : singleLine s → singleLine (trim s).
Proof. intros Hs. by apply singleLine_trimEnd, singleLine_dropSpaces. Qed.

Lemma dropSpaces_idem s : dropSpaces (dropSpaces s) = dropSpaces s.
Proof.
  induction s as [|c s IH]; [done|]. simpl.
  destruct (isSpace c) eqn:Hc; [done|]. simpl. by rewrite Hc.
Qed.

Lemma trimEnd_idem s : trimEnd (trimEnd s) = trimEnd s.
Proof.
  induction s as [|c s IH]; [done|]. simpl.
  destruct (trimEnd s) as [|d r] eqn:E.
  - destruct (isSpace c) eqn:Hc; [done|]. simpl. by rewrite Hc.
  - change (trimEnd (String c (String d r))) with
      (match trimEnd (String d r) with
       | EmptyString => if isSpace c then EmptyString else String c EmptyString
       | r0 => String c r0
       end).
    by rewrite IH.
Qed.

(** Text that does not begin with white space. *)
Lemma dropSpaces_fixed s :
  dropSpaces s = s ↔ match s with String c _ => isSpace c = false | EmptyString => True end.
Proof.
  destruct s as [|c s]; [done|]. simpl. destruct (isSpace c) eqn:Hc; [|done].
  split; [|done]. intros H. apply (f_equal String.length) in H. simpl in H.
  assert (Hlen : ∀ t, (String.length (dropSpaces t) <= String.length t)%nat).
  { clear. induction t as [|a t IH]; [done|]. simpl.
    destruct (isSpace a); simpl; lia. }
  specialize (Hlen s). lia.
Qed.

Lemma dropSpaces_trimEnd s : dropSpaces s = s → dropSpaces (trimEnd s) = trimEnd s.
Proof.
  intros Hs%dropSpaces_fixed. apply dropSpaces_fixed.
  destruct s as [|c s]; [done|]. simpl.
  destruct (trimEnd s); [by rewrite Hs|done].
Qed.

Lemma trim_idem s : trim (trim s) = trim s.
Proof.
  unfold trim. rewrite dropSpaces_trimEnd by apply dropSpaces_idem.
  apply trimEnd_idem.
Qed.

Lemma singleLine_no_newline s : singleLine s → includes s newline = false.
Proof.
  induction s as [|c s IH]; [done|]. intros [Hc Hs]%singleLine_cons.
  unfold newline. rewrite includes_char_cons. fold newline. rewrite (IH Hs).
  destruct (Ascii.eqb_spec "010" c) as [<-|]; done.
Qed.

(** On a group without a line feed, the description pipeline of split,
    trim, filter and join is [trim]. *)
Lemma description_pipeline g :
  singleLine g →
  join " " (List.filter nonEmpty (map trim (split "010" g))) = trim g.
Proof.
  intros Hg. rewrite (split_free "010" g) by by apply singleLine_no_newline.
  simpl. by destruct (trim g).
Qed.

Lemma firstMatch_Some attempt atStart s g :
  firstMatch attempt atStart s = Some g → ∃ s', attempt s' = Some g.
Proof.
  revert atStart. induction s as [|c s IH]; intros atStart; simpl.
  - destruct atStart; [|done]. destruct (attempt "") eqn:E; [|done].
    intros [= <-]. by eexists.
  - destruct atStart.
    + destruct (attempt (String c s)) eqn:E.
      * intros [= <-]. by eexists.
      * apply IH.
    + apply IH.
Qed.

Lemma lastOfLine_Some s g :
  lastOfLine s = Some g → ∃ c, g = String c "" ∧ isLineTerminator c = false.
Proof.
  induction s as [|c s IH]; [done|]. simpl.
  destruct (lastOfLine s) as [g'|]; [intros [= <-]; by apply IH|].
  destruct (isLineTerminator c) eqn:Hc; [done|]. intros [= <-]. by exists c.
Qed.

Lemma componentGroup_singleLine rest g :
  componentGroup rest = Some g → singleLine g.
Proof.
  unfold componentGroup. destruct (takeLine (dropSpaces rest)) as [|a t] eqn:E.
  - intros (c & -> & Hc)%lastOfLine_Some. by apply singleLine_cons.
  - intros [= <-]. unfold singleLine. by rewrite <- E, takeLine_idem.
Qed.

(** X22. Both fields of [parseFrontmatter] are trimmed single lines: for
    every document, the component name and the description hold no line
    terminator and neither begin nor end with white space. A description
    that runs over several lines in the header is cut at the end of its
    first line; continuation lines are never joined in. *)
Theorem parseFrontmatter_single_line mdx :
  singleLine (parseFrontmatter mdx).1 ∧ trimmed (parseFrontmatter mdx).1 ∧
  singleLine (parseFrontmatter mdx).2 ∧ trimmed (parseFrontmatter mdx).2.
Proof.
  unfold parseFrontmatter.
  destruct (stripPrefix _ mdx ≫= beforeFirst _) as [yaml|]; [|done].
  cbv zeta. cbn [fst snd].
  split; [|split; [|split]].
  - destruct (firstMatch _ true yaml) as [g|] eqn:E; [|done]. cbn [fmap option_fmap option_map default].
    apply firstMatch_Some in E as [s' Hs'].
    cbv beta in Hs'.
    destruct (stripPrefix "component:" s') as [rest|]; simpl in Hs'; [|done].
    by apply singleLine_trim, (componentGroup_singleLine rest).
  - destruct (firstMatch _ true yaml) as [g|]; [|done]. apply trim_idem.
  - destruct (firstMatch _ true yaml) as [g|] eqn:E; [|done].
    apply firstMatch_Some in E as [s' Hs'].
    cbv beta in Hs'.
    destruct (stripPrefix "description:" s') as [rest|]; simpl in Hs'; [|done].
    injection Hs' as <-.
    assert (Hg : singleLine (descriptionGroup rest)) by apply takeLine_idem.
    rewrite description_pipeline by done. by apply singleLine_trim.
  - destruct (firstMatch _ true yaml) as [g|] eqn:E; [|done].
    apply firstMatch_Some in E as [s' Hs'].
    cbv beta in Hs'.
    destruct (stripPrefix "description:" s') as [rest|]; simpl in Hs'; [|done].
    injection Hs' as <-.
    assert (Hg : singleLine (descriptionGroup rest)) by apply takeLine_idem.
    rewrite description_pipeline by done. apply trim_idem.
Qed.

(** The comment in the source promises multi-line descriptions; the
    second line of this one is dropped. *)
Example parseFrontmatter_folded :
  parseFrontmatter foldedDocument = ("Button", "Triggers an action").
Proof. reflexivity. Qed.

(** A key without a value takes the next line as its value. *)
Example parseFrontmatter_empty_component :
  parseFrontmatter (frontmatter "" "An input" "") = ("description: An input", "An input").
Proof. reflexivity. Qed.

Lemma string_app_nil_r (x : string) : x +:+ "" = x.
Proof. induction x as [|a x IH]; [done|]. by rewrite string_app_cons, IH. Qed.

Lemma dropSpaces_length s : (String.length (dropSpaces s) <= String.length s)%nat.
Proof.
  induction s as [|a s IH]; [done|]. simpl. destruct (isSpace a); simpl; lia.
Qed.

Lemma trimEnd_length s : (String.length (trimEnd s) <= String.length s)%nat.
Proof.
  induction s as [|a s IH]; [done|]. simpl.
  destruct (trimEnd s); [destruct (isSpace a)|]; simpl in *; lia.
Qed.

Lemma trimmed_dropSpaces s : trimmed s → dropSpaces s = s.
Proof.
  unfold trimmed, trim. intros Ht. apply dropSpaces_fixed.
  destruct s as [|c s]; [done|]. destruct (isSpace c) eqn:Hc; [|done].
  apply (f_equal String.length) in Ht. simpl in Ht. rewrite Hc in Ht.
  pose proof (trimEnd_length (dropSpaces s)). pose proof (dropSpaces_length s). lia.
Qed.

Lemma dropSpaces_app s y : s ≠ "" → dropSpaces s = s → dropSpaces (s +:+ y) = s +:+ y.
Proof.
  intros Hne Hs%dropSpaces_fixed. destruct s as [|c s]; [done|].
  rewrite string_app_cons. simpl. by rewrite Hs.
Qed.

Lemma takeLine_app_newline x y : singleLine x → takeLine (x +:+ newline +:+ y) = x.
Proof.
  induction x as [|c x IH]; [done|]. intros [Hc Hx]%singleLine_cons.
  rewrite string_app_cons. simpl. by rewrite Hc, IH.
Qed.

Lemma beforeFirst_step pat c s :
  startsWith (String c s) pat = false →
  beforeFirst pat (String c s) = String c <$> beforeFirst pat s.
Proof. intros H. cbn [beforeFirst]. by rewrite H. Qed.

Lemma beforeFirst_here pat y : beforeFirst pat (pat +:+ y) = Some "".
Proof.
  assert (H : startsWith (pat +:+ y) pat = true) by (apply startsWith_spec; by exists y).
  destruct (pat +:+ y); simpl; by rewrite H.
Qed.

(** A lazy group runs over a line without looking back. *)
Lemma beforeFirst_skip_line p x y :
  singleLine x →
  beforeFirst (newline +:+ p) (x +:+ y)
  = (λ r, x +:+ r) <$> beforeFirst (newline +:+ p) y.
Proof.
  induction x as [|c x IH]; intros Hx.
  - change ("" +:+ y) with y. by destruct (beforeFirst _ y).
  - apply singleLine_cons in Hx as [Hc Hx]. rewrite string_app_cons.
    rewrite beforeFirst_step, (IH Hx).
    + by destruct (beforeFirst _ y).
    + change (newline +:+ p) with (String "010" p). cbn [startsWith].
      destruct (Ascii.eqb_spec "010" c) as [<-|]; [discriminate Hc | done].
Qed.

Lemma firstMatch_here attempt s g :
  attempt s = Some g → firstMatch attempt true s = Some g.
Proof. intros H. destruct s; simpl; by rewrite H. Qed.

(** A search under the [m] flag passes over a line it does not match at
    and resumes at the start of the next. *)
Lemma firstMatch_rest_of_line attempt x y :
  singleLine x →
  firstMatch attempt false (x +:+ newline +:+ y) = firstMatch attempt true y.
Proof.
  induction x as [|c x IH]; [done|]. intros [Hc Hx]%singleLine_cons.
  rewrite string_app_cons. simpl. rewrite Hc. by apply IH.
Qed.

Lemma firstMatch_next_line attempt c x y :
  singleLine (String c x) →
  attempt (String c x +:+ newline +:+ y) = None →
  firstMatch attempt true (String c x +:+ newline +:+ y) = firstMatch attempt true y.
Proof.
  intros [Hc Hx]%singleLine_cons Hnone. rewrite string_app_cons in *.
  simpl. rewrite Hnone, Hc. by apply firstMatch_rest_of_line.
Qed.

(** X23. Round trip of a well-formed header: for a non-empty component
    name and a description that are each a trimmed single line, and any
    body, the document [---\ncomponent: c\ndescription: d\n---body]
    parses to [(c, d)]. *)
Theorem parseFrontmatter_round_trip c d body :
  c ≠ "" → singleLine c → trimmed c → singleLine d → trimmed d →
  parseFrontmatter (frontmatter c d body) = (c, d).
Proof.
  intros Hne Hlc Htc Hld Htd.
  set (yaml := "component: " +:+ c +:+ newline +:+ "description: " +:+ d).
  assert (Hyaml : stripPrefix ("---" +:+ newline) (frontmatter c d body)
                  ≫= beforeFirst (newline +:+ "---") = Some yaml).
  { unfold frontmatter.
    replace ("---" +:+ newline +:+ "component: " +:+ c +:+ newline
             +:+ "description: " +:+ d +:+ newline +:+ "---" +:+ body)
      with (("---" +:+ newline) +:+ ("component: " +:+ c) +:+ newline
            +:+ ("description: " +:+ d) +:+ (newline +:+ "---") +:+ body)
      by by rewrite !string_app_assoc.
    rewrite stripPrefix_app. simpl.
    rewrite beforeFirst_skip_line
      by (apply singleLine_app; [reflexivity | done]).
    change (newline +:+ ("description: " +:+ d) +:+ (newline +:+ "---") +:+ body)
      with (String "010" (("description: " +:+ d) +:+ (newline +:+ "---") +:+ body)).
    rewrite beforeFirst_step by reflexivity.
    rewrite beforeFirst_skip_line
      by (apply singleLine_app; [reflexivity | done]).
    rewrite beforeFirst_here. simpl. unfold yaml.
    by rewrite string_app_nil_r, !string_app_assoc. }
  assert (Hcomponent :
    firstMatch (λ s, stripPrefix "component:" s ≫= componentGroup) true yaml = Some c).
  { apply firstMatch_here. unfold yaml.
    replace ("component: " +:+ c +:+ newline +:+ "description: " +:+ d)
      with ("component:" +:+ " " +:+ c +:+ newline +:+ "description: " +:+ d)
      by reflexivity.
    rewrite stripPrefix_app. simpl. unfold componentGroup.
    change (" " +:+ c +:+ newline +:+ "description: " +:+ d)
      with (String " " (c +:+ newline +:+ "description: " +:+ d)).
    change (dropSpaces (String " " (c +:+ newline +:+ "description: " +:+ d)))
      with (dropSpaces (c +:+ newline +:+ "description: " +:+ d)).
    rewrite dropSpaces_app by (done || by apply trimmed_dropSpaces).
    rewrite takeLine_app_newline by done. by destruct c. }
  assert (Hdescription :
    firstMatch (λ s, descriptionGroup <$> stripPrefix "description:" s) true yaml
    = Some d).
  { unfold yaml.
    change ("component: " +:+ c +:+ newline +:+ "description: " +:+ d)
      with (String "c" ("omponent: " +:+ c) +:+ newline +:+ "description: " +:+ d).
    rewrite firstMatch_next_line.
    - apply firstMatch_here.
      replace ("description: " +:+ d) with ("description:" +:+ " " +:+ d)
        by reflexivity.
      rewrite stripPrefix_app. simpl. unfold descriptionGroup.
      change (dropSpaces (" " +:+ d)) with (dropSpaces d).
      rewrite (trimmed_dropSpaces d Htd). by rewrite Hld.
    - apply singleLine_cons. split; [reflexivity|].
      apply singleLine_app; [reflexivity | done].
    - reflexivity. }
  unfold parseFrontmatter. rewrite Hyaml. cbv zeta.
  rewrite Hcomponent, Hdescription. simpl.
  rewrite description_pipeline by done. by rewrite Htc, Htd.
Qed.

Lemma parseFrontmatter_round_trip_witness :
  parseFrontmatter (frontmatter "Text Field" "An input for one line of text."
                      (newline +:+ "# Text field"))
  = ("Text Field", "An input for one line of text.").
Proof.
  apply (parseFrontmatter_round_trip "Text Field" "An input for one line of text.");
    [discriminate | reflexivity | reflexivity | reflexivity | reflexivity].
Defined.

(* ===================================================================== *)
(** * The entries of a built registry *)
(* ===================================================================== *)

Lemma fetchComponent_name fetch parse cat slg c :
  slg ≠ "" → fetchComponent fetch parse (cat, slg) = Ok c → name c ≠ "".
Proof.
  intros Hslg. unfold fetchComponent.
  destruct (fetchRaw fetch (indexUrl cat slg)) as [[raw|]|e]; [| |done].
  - destruct (nonEmpty raw); simpl.
    + destruct (parse raw) as [component descr]. intros [= <-]. simpl.
      by destruct component.
    + by intros [= <-].
  - by intros [= <-].
Qed.

(** X24. Every entry of a registry that [getRegistry] builds is usable as
    an identifier and as a label: its slug and its category are non-empty
    and hold no slash, and its display name is non-empty, the slug
    standing in when the header gives none. *)
Theorem getRegistry_entries_named fetch parse now_get now_set st r st' :
  cacheMissed now_get "registry" st →
  getRegistry fetch parse now_get now_set st = (Ok (VRegistry r), st') →
  Forall (λ c, slug c ≠ "" ∧ category c ≠ "" ∧ name c ≠ "" ∧
               includes (slug c) "/" = false ∧ includes (category c) "/" = false)
    (components r).
Proof.
  intros Hmiss. rewrite getRegistry_miss by done. simpl.
  destruct (fetchJson fetch TREE_URL) as [tree|e]; [|done].
  destruct (allOutcomes _ (treeEntries tree)) as [cs|e] eqn:Hcs; [|done].
  intros [= <- _]. simpl. apply allOutcomes_Ok_Forall2 in Hcs.
  apply Forall_forall. intros c [i Hi]%list_elem_of_lookup_1.
  destruct (Forall2_lookup_r _ _ _ _ _ Hcs Hi) as ([cat slg] & Hentry & Hc).
  apply list_elem_of_lookup_2, list_elem_of_omap in Hentry as (entry & _ & Hmatch).
  apply matchIndex_iff in Hmatch as (_ & Hcat & Hslg & Hfc & Hfs).
  pose proof (fetchComponent_name _ _ _ _ _ Hslg Hc) as Hname.
  apply fetchComponent_Ok_fields in Hc as [-> ->]. done.
Qed.

Lemma getRegistry_entries_named_witness :
  ∃ r,
    fst (getRegistry sampleFetch sampleParse 0 5 ∅) = Ok (VRegistry r) ∧
    Forall (λ c, slug c ≠ "" ∧ category c ≠ "" ∧ name c ≠ "" ∧
                 includes (slug c) "/" = false ∧ includes (category c) "/" = false)
      (components r).
Proof.
  assert (Hmiss : cacheMissed 0 "registry" ∅) by exact I.
  destruct (fst (getRegistry sampleFetch sampleParse 0 5 ∅)) as [[s|r|d]|e] eqn:E;
    try discriminate E.
  exists r. split; [reflexivity|].
  apply (getRegistry_entries_named sampleFetch sampleParse 0 5 ∅ r
           (snd (getRegistry sampleFetch sampleParse 0 5 ∅)) Hmiss).
  rewrite <- E. apply surjective_pairing.
Defined.

Lemma matchIndex_inj p q entry :
  matchIndex p = Some entry → matchIndex q = Some entry → p = q.
Proof.
  destruct entry as [cat slg].
  intros (-> & _)%matchIndex_iff (-> & _)%matchIndex_iff. done.
Qed.

(** X25. A tree lists each component once: where the paths of the tree
    listing are distinct, as they are in a git tree, no (category, slug)
    pair occurs twice among the entries [getRegistry] collects; a slug can
    repeat only under different categories. *)
Theorem treeEntries_NoDup tree :
  NoDup (map path tree) → NoDup (treeEntries tree).
Proof.
  unfold treeEntries. induction tree as [|entry tree IH]; simpl; [constructor|].
  intros [Hnotin Hnd]%NoDup_cons. specialize (IH Hnd).
  destruct (matchIndex (path entry)) as [pair|] eqn:Hm; [|done].
  apply NoDup_cons. split; [|done].
  intros (entry' & Hin & Hm')%list_elem_of_omap. apply Hnotin.
  rewrite (matchIndex_inj _ _ _ Hm Hm'). by apply (list_elem_of_fmap_2 path).
Qed.

Lemma treeEntries_NoDup_witness : NoDup (treeEntries sampleTree).
Proof.
  apply treeEntries_NoDup.
  repeat (apply NoDup_cons_2;
          [rewrite ?not_elem_of_cons; repeat split;
             first [discriminate | apply not_elem_of_nil]|]).
  apply NoDup_nil_2.
Defined.

(* ===================================================================== *)
(** * Properties of the tool get_component_develop *)
(* ===================================================================== *)

Lemma includes_app_r a b needle :
  includes b needle = true → includes (a +:+ b) needle = true.
Proof.
  intros (pre & post & ->)%includes_spec. apply includes_spec.
  exists (a +:+ pre), post. by rewrite !string_app_assoc.
Qed.

Lemma onStore_run {A} (m : M (Store Value) A) w :
  onStore m w = (fst (m (store w)), withStore (λ _, snd (m (store w))) w).
Proof. unfold onStore. by destruct (m (store w)). Qed.

Lemma getRegistry_fresh fetch parse now_get now_set st entry :
  st !! "registry" = Some entry → now_get <= expiresAt entry →
  truthy (value entry) = true →
  getRegistry fetch parse now_get now_set st = (Ok (value entry), st).
Proof.
  intros Hst Hnow Hv. rewrite getRegistry_unfold.
  rewrite (cacheGet_fresh now_get "registry" entry st Hst Hnow). simpl.
  by rewrite Hv.
Qed.

Section DevelopToolFacts.

Variable fetch : string → FetchResult.
Variable parse : string → string * string.
Variable pw : Playwright.
Variable cleanMdx : string → string.
Variable typeErrorMessage bodyErrorMessage : string.

(** X26. Naming the category does not spare the registry: the tool
    fetches the registry for the display name even when the category is
    given, so with no usable cached registry and a failing tree listing
    the request fails with that error, before any document is fetched and
    before the browser is touched. *)
Theorem develop_needs_registry component c t1 t2 t3 t4 t5 t6 t7 t8 w :
  c ≠ "" →
  cacheMissed t3 "registry" (store w) →
  treeListingFails fetch →
  ∃ e,
    fetchJson fetch TREE_URL = Throw e ∧
    get_component_develop fetch parse pw cleanMdx typeErrorMessage bodyErrorMessage
      component (Some c) t1 t2 t3 t4 t5 t6 t7 t8 w
    = (developFailure component
         (errorMessage typeErrorMessage bodyErrorMessage e),
       withStore (λ _, snd (cacheGet t3 "registry" (store w))) w).
Proof.
  intros Hc Hmiss [e He]%fetchJson_Throw. exists e. split; [done|].
  unfold get_component_develop, developBody, bind.
  rewrite onStore_run. unfold resolveCategory.
  destruct c as [|a c]; [done|]. simpl.
  rewrite onStore_run. simpl.
  rewrite getRegistry_miss by done. simpl. rewrite He. simpl.
  by destruct w.
Qed.

(** X27. An identifier the registry does not know is answered from the
    registry alone: with a cached registry that is still fresh, no
    category (or the empty one) and no binding for the identifier, the
    tool returns the not-found text with the suggestions of
    [suggestComponent], flagged as an error, and leaves the world as it
    is: no request, no browser. *)
Theorem develop_not_found component category r entry t1 t2 t3 t4 t5 t6 t7 t8 w :
  category = None ∨ category = Some "" →
  store w !! "registry" = Some entry →
  value entry = VRegistry r →
  t1 <= expiresAt entry → t3 <= expiresAt entry →
  bySlug r !! component = None →
  get_component_develop fetch parse pw cleanMdx typeErrorMessage bodyErrorMessage
    component category t1 t2 t3 t4 t5 t6 t7 t8 w
  = (notFound component (suggestComponent component r), w).
Proof.
  intros Hcat Hst Hv Ht1 Ht3 Hnone.
  assert (Htruthy : truthy (value entry) = true) by by rewrite Hv.
  unfold get_component_develop, developBody, bind.
  rewrite onStore_run, resolveCategory_via_registry by done.
  rewrite (getRegistry_fresh fetch parse t1 t2 _ entry Hst Ht1 Htruthy), Hv.
  unfold locate. rewrite Hnone. unfold ret. simpl.
  rewrite onStore_run. simpl.
  rewrite (getRegistry_fresh fetch parse t3 t4 _ entry Hst Ht3 Htruthy), Hv.
  simpl. by destruct w.
Qed.

(** X28. A timeout status from GitHub is reported as a page that did not
    render: when the develop document is answered with an error status
    whose text contains [Timeout] (504 Gateway Timeout, 408 Request
    Timeout), the message of [fetchRaw] contains it too, and the [catch]
    block, which tests the message for [Timeout], answers that the
    property tables timed out, although the browser was never asked. *)
Theorem develop_timeout_status component c r entry res t1 t2 t3 t4 t5 t6 t7 t8 w :
  c ≠ "" →
  store w !! "registry" = Some entry →
  value entry = VRegistry r →
  t3 <= expiresAt entry →
  cacheMissed t5 (mdxKey c component "develop") (store w) →
  fetch (mdxUrl c component "develop") = Resolved res →
  status res ≠ 404 → ok res = false →
  includes (statusText res) "Timeout" = true →
  includes ("GitHub raw fetch error: " +:+ showNumber (status res) +:+ " "
            +:+ statusText res) "browserType.launch" = false →
  get_component_develop fetch parse pw cleanMdx typeErrorMessage bodyErrorMessage
    component (Some c) t1 t2 t3 t4 t5 t6 t7 t8 w
  = ({| resultText :=
          "Timed out loading property tables for " +:+ quote +:+ component +:+ quote
          +:+ ". The develop page may not have rendered in time.";
        resultIsError := true |},
     withStore (λ _, snd (cacheGet t5 (mdxKey c component "develop") (store w))) w).
Proof.
  intros Hc Hst Hv Ht3 Hmiss Hres H404 Hok Htimeout Hlaunch.
  assert (Htruthy : truthy (value entry) = true) by by rewrite Hv.
  unfold get_component_develop, developBody, bind.
  rewrite onStore_run. unfold resolveCategory.
  destruct c as [|a c]; [done|]. simpl.
  rewrite onStore_run. simpl.
  rewrite (getRegistry_fresh fetch parse t3 t4 _ entry Hst Ht3 Htruthy), Hv.
  simpl. rewrite onStore_run. simpl.
  rewrite fetchMdx_unfold. simpl. unfold cacheMissed in Hmiss. simpl in Hmiss.
  assert (Hraw : fetchRaw fetch (mdxUrl (String a c) component "develop")
                 = Throw (GitHubRawFetchError (status res) (statusText res))).
  { unfold fetchRaw. rewrite Hres, Hok.
    by destruct (Z.eqb_spec (status res) 404). }
  rewrite Hraw.
  assert (Hfail :
    developFailure component
      (errorMessage typeErrorMessage bodyErrorMessage
         (GitHubRawFetchError (status res) (statusText res)))
    = {| resultText :=
           "Timed out loading property tables for " +:+ quote +:+ component +:+ quote
           +:+ ". The develop page may not have rendered in time.";
         resultIsError := true |}).
  { unfold developFailure, errorMessage. rewrite Hlaunch.
    rewrite (includes_app_r "GitHub raw fetch error: "
               (showNumber (status res) +:+ " " +:+ statusText res));
      [done|].
    rewrite (includes_app_r (showNumber (status res)) (" " +:+ statusText res));
      [done|].
    by apply (includes_app_r " "). }
  destruct (fst (cacheGet t5 _ (store w))) as [v|]; [rewrite Hmiss|];
    cbn -[developFailure errorMessage]; rewrite Hfail; by destruct w.
Qed.

End DevelopToolFacts.

Lemma develop_needs_registry_witness :
  resultIsError
    (fst (get_component_develop offline sampleParse noBrowser (λ s, s) "" ""
            "button" (Some "actions") 0 0 0 0 0 0 0 0 freshWorld))
  = true.
Proof.
  assert (Hmiss : cacheMissed 0 "registry" (store freshWorld)) by exact I.
  destruct (develop_needs_registry offline sampleParse noBrowser (λ s, s) "" ""
              "button" "actions" 0 0 0 0 0 0 0 0 freshWorld
              ltac:(discriminate) Hmiss I) as (e & He & ->).
  injection He as <-. reflexivity.
Defined.

Lemma develop_not_found_witness :
  get_component_develop offline sampleParse noBrowser (λ s, s) "" ""
    "butt" None 0 0 0 0 0 0 0 0 (registryCached 1000)
  = (notFound "butt" ["button"; "button-group"], registryCached 1000).
Proof.
  assert (Hst : store (registryCached 1000) !! "registry"
                = Some {| value := VRegistry exampleRegistry; expiresAt := 1000 |})
    by reflexivity.
  assert (Hnone : bySlug exampleRegistry !! "butt" = None) by reflexivity.
  exact (develop_not_found offline sampleParse noBrowser (λ s, s) "" ""
           "butt" None exampleRegistry
           {| value := VRegistry exampleRegistry; expiresAt := 1000 |}
           0 0 0 0 0 0 0 0 (registryCached 1000)
           (or_introl eq_refl) Hst eq_refl ltac:(simpl; lia) ltac:(simpl; lia) Hnone).
Defined.

Lemma develop_timeout_status_witness :
  resultText
    (fst (get_component_develop (λ _, Resolved gatewayTimeout) sampleParse noBrowser
            (λ s, s) "" "" "button" (Some "actions") 0 0 0 0 0 0 0 0
            (registryCached 1000)))
  = "Timed out loading property tables for " +:+ quote +:+ "button" +:+ quote
    +:+ ". The develop page may not have rendered in time.".
Proof.
  assert (Hmiss : cacheMissed 0 (mdxKey "actions" "button" "develop")
                    (store (registryCached 1000))) by exact I.
  assert (Hst : store (registryCached 1000) !! "registry"
                = Some {| value := VRegistry exampleRegistry; expiresAt := 1000 |})
    by reflexivity.
  rewrite (develop_timeout_status (λ _, Resolved gatewayTimeout) sampleParse noBrowser
             (λ s, s) "" "" "button" "actions" exampleRegistry
             {| value := VRegistry exampleRegistry; expiresAt := 1000 |}
             gatewayTimeout 0 0 0 0 0 0 0 0 (registryCached 1000)
             ltac:(discriminate) Hst eq_refl ltac:(simpl; lia) Hmiss eq_refl
             ltac:(discriminate) eq_refl eq_refl eq_refl).
  reflexivity.
Defined.
